(** * viabel: the stochastic optimizers of [viabel/optimizing_classes.py]

    A shallow embedding of the Python module [optimizing_classes]: the
    descent-direction strategies [RMSProp] and [AdaGrad], the generic loop
    [StochasticGradientOptimizer.optimize] and the adaptive controller
    [SASA] with its stationarity test.

    Conventions of the embedding.
    - Python exceptions are values of [exn]; a computation that may raise
      returns a [result].
    - numpy's [float64] scalars are an abstract type [F] with the operations
      of the class [Float64].  Two instances are given: IEEE binary64
      ([float], executable, which the code runs on) and the real numbers
      ([R]).  What is proved of the arithmetic of the code is proved of
      binary64, from the specification of the primitive floats.
    - A 1-D [ndarray] is the list of its elements, a 2-D one the list of
      its rows, all of dtype float64 unless a dtype is given.  Arrays that
      the code updates in place live in a store and are named by their
      location, so that two names of one array see the same updates.
    - The order in which numpy adds the elements of a vector ([np.sum],
      [np.mean]) and in which BLAS computes [np.dot] belongs to those
      libraries: the two reductions are fields of [Float64].  The binary64
      instance adds as numpy's pairwise summation does.
    - [scipy.stats.t.ppf] and [viabel.approximations.MFGaussian._kl] are not
      part of the module; they are the fields of the class [Library]. *)

From Stdlib Require Import ZArith QArith Reals Lra Lia Floats.
From stdpp Require Import base list gmap strings.

(** ** Exceptions and results *)

Inductive exn : Type :=
| AttributeError (name : string)
| UnboundLocalError (name : string)
| TypeError (msg : string)
| ValueError (msg : string)
| IndexError
| ZeroDivisionError
| OverflowError.

Inductive result (A : Type) : Type :=
| Ok (a : A)
| Raise (e : exn).
Arguments Ok {A} a.
Arguments Raise {A} e.

(** Sequencing: the first exception raised ends the computation. *)
Definition bind {A B} (m : result A) (k : A → result B) : result B :=
  match m with
  | Ok a => k a
  | Raise e => Raise e
  end.

Notation "'let*' x := m 'in' k" := (bind m (λ x, k))
  (at level 10, x pattern, m at level 100, k at level 200,
   format "'[v' 'let*'  x  :=  m  'in' '/' k ']'").

Definition is_Ok {A} (r : result A) : bool :=
  match r with Ok _ => true | Raise _ => false end.

(** ** Scalars: numpy's float64 *)

Class Float64 (F : Type) : Type := {
  fadd : F → F → F;
  fsub : F → F → F;
  fmul : F → F → F;
  fdiv : F → F → F;             (* numpy division: no exception on a zero divisor *)
  fsqrt : F → F;                (* np.sqrt *)
  flt : F → F → bool;           (* x < y; [y > x] is the same test *)
  of_int : Z → F;               (* conversion of a Python or numpy integer *)
  floor_int : F → Z;            (* np.floor(x).astype(int) *)
  ceil_int : F → Z;             (* np.ceil(x).astype(int) *)
  trunc_int : F → Z;            (* int(x) on a finite x *)
  fis_nan : F → bool;
  fis_inf : F → bool;
  fsum : list F → F;            (* np.add.reduce over a contiguous vector *)
  fdot : list F → list F → F;   (* BLAS ddot on two vectors of one length *)
}.

(** The functions the module imports from outside. *)
Class Library (F : Type) : Type := {
  tdist_ppf : F → Z → F;        (* scipy.stats.t.ppf(q, df=...) *)
  MFGaussian_kl : list F → list F → F;   (* viabel.approximations.MFGaussian._kl *)
}.

Declare Scope float64_scope.
Delimit Scope float64_scope with f64.
Infix "+" := fadd : float64_scope.
Infix "-" := fsub : float64_scope.
Infix "*" := fmul : float64_scope.
Infix "/" := fdiv : float64_scope.
Infix "<?" := flt : float64_scope.

Section Scalars.
Context {F : Type} `{Float64 F}.

(** A decimal literal of the source, such as [0.9] or [1e-8]: the quotient
    of two integers (correctly rounded in binary64). *)
Definition lit (q : Q) : F := (of_int (Qnum q) / of_int (Zpos (Qden q)))%f64.

(** [x ** 2] on a float64 array element. *)
Definition fsq (x : F) : F := (x * x)%f64.

(** Python's [int(x)] for a float [x]. *)
Definition py_int (x : F) : result Z :=
  if fis_nan x then Raise (ValueError "cannot convert float NaN to integer")
  else if fis_inf x then Raise OverflowError
  else Ok (trunc_int x).
End Scalars.

(** *** numpy's sum of a contiguous vector *)

(** [DOUBLE_pairwise_sum] of numpy over an addition [add]: fewer than 8
    elements are added from left to right, starting from zero; up to 128
    elements are added into 8 accumulators, [r[j] += a[i + j]] block after
    block, which are combined as a balanced tree before the elements after
    the last full block are added one by one; a longer vector is cut in two
    at a multiple of 8 near the middle.  [np.add.reduce] adds the result to
    its identity 0. *)
Section Pairwise.
Context {A : Type} (add : A → A → A) (zero : A).

Definition add8 (r : list A) : A :=
  match r with
  | [r0; r1; r2; r3; r4; r5; r6; r7] =>
      add (add (add r0 r1) (add r2 r3)) (add (add r4 r5) (add r6 r7))
  | _ => zero
  end.

Fixpoint add_blocks (blocks : nat) (r a : list A) : list A :=
  match blocks with
  | O => r
  | S blocks' => add_blocks blocks' (zip_with add r (take 8 a)) (drop 8 a)
  end.

Definition sum_unrolled (a : list A) : A :=
  let blocks := (length a / 8)%nat in
  let r := add_blocks (blocks - 1) (take 8 a) (drop 8 a) in
  foldl add (add8 r) (drop (8 * blocks) a).

(** The recursion halves the vector: [length a] is fuel enough. *)
Fixpoint pairwise_sum (fuel : nat) (a : list A) : A :=
  let n := length a in
  if (n <? 8)%nat then foldl add zero a
  else if (n <=? 128)%nat then sum_unrolled a
  else match fuel with
       | O => sum_unrolled a
       | S fuel' =>
           let n2 := (n / 2 - (n / 2) mod 8)%nat in
           add (pairwise_sum fuel' (take n2 a)) (pairwise_sum fuel' (drop n2 a))
       end.

Definition add_reduce (a : list A) : A := add zero (pairwise_sum (length a) a).

(** The sum of products from left to right, one of the orders a [ddot] may
    follow. *)
Definition dot_product (mul : A → A → A) (a b : list A) : A :=
  foldl add zero (zip_with mul a b).
End Pairwise.

(** *** IEEE binary64 *)

Module Binary64.
(** The integer nearest to [z] in binary64. *)
Definition of_Z (z : Z) : float := SF2Prim (binary_normalize prec emax z 0 false).

Definition int64_min : Z := (- 2 ^ 63)%Z.
Definition int64_max : Z := (2 ^ 63 - 1)%Z.

(** [.astype(int)] on a float64 that holds the integer [z]: [z] when it is
    an int64, the least int64 when it is not. *)
Definition astype_int (z : Z) : Z :=
  if (int64_min <=? z)%Z && (z <=? int64_max)%Z then z else int64_min.

(** Rounding a float to an integer: [dir] is [Lt] for floor, [Gt] for
    ceiling and [Eq] for truncation.  A NaN or an infinity is cast by
    numpy to the least int64. *)
Definition round_to_Z (dir : comparison) (x : float) : Z :=
  match Prim2SF x with
  | S754_zero _ => 0%Z
  | S754_infinity _ | S754_nan => int64_min
  | S754_finite s m e =>
      let d := (2 ^ (- e))%Z in
      let q := if (0 <=? e)%Z then (Zpos m * 2 ^ e)%Z else (Zpos m / d)%Z in
      let exact := if (0 <=? e)%Z then true else (Zpos m mod d =? 0)%Z in
      let up := if exact then 0%Z else 1%Z in
      match dir, s with
      | Lt, false | Eq, false => q
      | Gt, false => (q + up)%Z
      | Lt, true => (- (q + up))%Z
      | Gt, true | Eq, true => (- q)%Z
      end
  end.

Definition is_inf (x : float) : bool :=
  match Prim2SF x with S754_infinity _ => true | _ => false end.

(** [x == 0]: [x] is [0.0] or [-0.0].  A zero vector has such elements. *)
Definition is_zero (x : float) : bool := PrimFloat.eqb x (of_Z 0).
Definition zero_vector (v : list float) : Prop := Forall (λ x, is_zero x = true) v.

(** A float that is not negative: its sign bit is clear, or it is a NaN. *)
Definition nonnegative (s : spec_float) : Prop :=
  match s with
  | S754_zero b | S754_infinity b | S754_finite b _ _ => b = false
  | S754_nan => True
  end.

#[global] Instance float64 : Float64 float := {|
  fadd := PrimFloat.add;
  fsub := PrimFloat.sub;
  fmul := PrimFloat.mul;
  fdiv := PrimFloat.div;
  fsqrt := PrimFloat.sqrt;
  flt := PrimFloat.ltb;
  of_int := of_Z;
  floor_int := λ x, astype_int (round_to_Z Lt x);
  ceil_int := λ x, astype_int (round_to_Z Gt x);
  trunc_int := round_to_Z Eq;
  fis_nan := PrimFloat.is_nan;
  fis_inf := is_inf;
  fsum := add_reduce PrimFloat.add (of_Z 0);
  fdot := dot_product PrimFloat.add (of_Z 0) PrimFloat.mul;
|}.
End Binary64.

(** *** Real numbers *)

Module Reals64.
Definition ltb (x y : R) : bool := if Rlt_dec x y then true else false.
Definition floor (x : R) : Z := Int_part x.
Definition ceil (x : R) : Z := (- Int_part (- x))%Z.
Definition trunc (x : R) : Z := if Rlt_dec x 0 then ceil x else floor x.

#[global] Instance real : Float64 R := {|
  fadd := Rplus;
  fsub := Rminus;
  fmul := Rmult;
  fdiv := Rdiv;
  fsqrt := R_sqrt.sqrt;
  flt := ltb;
  of_int := IZR;
  floor_int := floor;
  ceil_int := ceil;
  trunc_int := trunc;
  fis_nan := λ _, false;
  fis_inf := λ _, false;
  fsum := add_reduce Rplus 0%R;
  fdot := dot_product Rplus 0%R Rmult;
|}.
End Reals64.

(** ** numpy arrays and Python lists *)

(** The dtype of an array the caller passes in.  An int64 array is given by
    its elements as float64 numbers, which is what the objective computes
    with. *)
Inductive dtype : Type := dtype_float64 | dtype_int64.

Section Numpy.
Context {F : Type} `{Float64 F}.

(** [np.sum] and [np.mean] of a 1-D array. *)
Definition np_sum (a : list F) : F := fsum a.
Definition np_mean (a : list F) : F := (np_sum a / of_int (Z.of_nat (length a)))%f64.

(** An element-wise binary operation on two 1-D arrays: equal shapes, or
    one operand of length 1 that is broadcast; a [ValueError] otherwise. *)
Definition broadcast (op : F → F → F) (a b : list F) : result (list F) :=
  if decide (length a = length b) then Ok (zip_with op a b)
  else match a, b with
       | [x], _ => Ok (map (op x) b)
       | _, [y] => Ok (map (λ x, op x y) a)
       | _, _ => Raise (ValueError "operands could not be broadcast together")
       end.

(** The new contents of [a] after the in-place [a -= b]: the right operand
    is broadcast to the shape of [a], which does not change. *)
Definition isub (a b : list F) : result (list F) :=
  if decide (length b = length a) then Ok (zip_with fsub a b)
  else match b with
       | [y] => Ok (map (λ x, x - y)%f64 a)
       | _ => Raise (ValueError "non-broadcastable output operand")
       end.

(** [a -= b] for a float64 array [b] and an array [a] of dtype [dt]: numpy
    does not cast the float64 difference into an int64 array (casting rule
    [same_kind]); the ufunc raises before it looks at the shapes. *)
Definition isub_into (dt : dtype) (a b : list F) : result (list F) :=
  match dt with
  | dtype_float64 => isub a b
  | dtype_int64 =>
      Raise (TypeError "Cannot cast ufunc 'subtract' output from float64 to int64")
  end.

(** [np.dot] of two 1-D arrays. *)
Definition np_dot (a b : list F) : result F :=
  if decide (length a = length b) then Ok (fdot a b)
  else Raise (ValueError "shapes not aligned").

(** The slice [l[i:]] of a Python list or of the rows of an array. *)
Definition slice_from {A} (i : Z) (l : list A) : list A :=
  if (0 <=? i)%Z then drop (Z.to_nat i) l
  else drop (length l - Z.to_nat (- i)) l.

(** [np.reshape(l, (m, b))]: [m] rows of [b] consecutive elements. *)
Fixpoint rows {A} (m b : nat) (l : list A) : list (list A) :=
  match m with
  | O => []
  | S m' => take b l :: rows m' b (drop b l)
  end.

Definition np_reshape (l : list F) (m b : Z) : result (list (list F)) :=
  if decide (0 ≤ m ∧ 0 ≤ b ∧ Z.of_nat (length l) = m * b)%Z
  then Ok (rows (Z.to_nat m) (Z.to_nat b) l)
  else Raise (ValueError "cannot reshape array").

(** [np.array] of a Python list of 1-D arrays: the list of its rows, which
    must agree in length. *)
Definition np_array (l : list (list F)) : result (list (list F)) :=
  match l with
  | [] => Ok []
  | r :: _ =>
      if forallb (λ r', Nat.eqb (length r') (length r)) l then Ok l
      else Raise (ValueError "inhomogeneous shape")
  end.

(** Means of a 2-D array: of all the elements, of each row ([axis=1]) and
    of each of the [d] columns ([axis=0]).  The elements of the array and
    those of a row are contiguous and are summed as a vector is.  Along
    axis 0 the rows are added one after the other into the result, which
    starts from 0; an array of one column is a contiguous vector again. *)
Definition np_mean2 (rs : list (list F)) : F := np_mean (concat rs).
Definition np_mean_axis1 (rs : list (list F)) : list F := map np_mean rs.
Definition column (j : nat) (rs : list (list F)) : list F :=
  omap (λ r : list F, r !! j) rs.
Definition sum_axis0 (d : nat) (col : list F) : F :=
  if decide (d = 1%nat) then np_sum col else foldl fadd (of_int 0) col.
Definition np_mean_axis0 (d : nat) (rs : list (list F)) : list F :=
  map (λ j, sum_axis0 d (column j rs) / of_int (Z.of_nat (length (column j rs))))%f64
      (seq 0 d).

(** [for t in range(...)] with a body that may raise or [break]. *)
Fixpoint for_loop {S} (body : Z → S → result (S * bool)) (ts : list Z) (s : S)
  : result S :=
  match ts with
  | [] => Ok s
  | t :: ts' =>
      match body t s with
      | Ok (s', true) => Ok s'
      | Ok (s', false) => for_loop body ts' s'
      | Raise e => Raise e
      end
  end.
End Numpy.

(** The store of the arrays that are updated in place. *)
Definition loc := nat.

Section Store.
Context {F : Type}.
Definition store := list (list F).
Definition alloc (a : list F) (σ : store) : loc * store := (length σ, σ ++ [a]).
Definition deref (σ : store) (l : loc) : list F := default [] (σ !! l).
Definition assign (l : loc) (a : list F) (σ : store) : store := <[l := a]> σ.
End Store.
Arguments store F : clear implicits.

(** ** Classes and objects *)

Inductive class : Type :=
| type_object
| type_ABC
| type_Optimizer
| type_StochasticGradientOptimizer
| type_RMSProp
| type_AdaGrad
| type_SASA.

#[global] Instance class_eq_dec : EqDecision class.
Proof. solve_decision. Defined.

(** The method resolution order: every class of the module has one base. *)
Definition mro (c : class) : list class :=
  match c with
  | type_object => [type_object]
  | type_ABC => [type_ABC; type_object]
  | type_Optimizer => [type_Optimizer; type_ABC; type_object]
  | type_StochasticGradientOptimizer =>
      [type_StochasticGradientOptimizer; type_Optimizer; type_ABC; type_object]
  | type_RMSProp =>
      [type_RMSProp; type_StochasticGradientOptimizer; type_Optimizer; type_ABC; type_object]
  | type_AdaGrad =>
      [type_AdaGrad; type_StochasticGradientOptimizer; type_Optimizer; type_ABC; type_object]
  | type_SASA => [type_SASA; type_Optimizer; type_ABC; type_object]
  end.

(** The names bound in each class body, with whether the binding is
    decorated [@abstractmethod].  The attributes built into [object] and
    [ABC] are left out: none of them is a name the module reads. *)
Definition namespace (c : class) : list (string * bool) :=
  match c with
  | type_object | type_ABC => []
  | type_Optimizer => [("optimize", true)]
  | type_StochasticGradientOptimizer =>
      [("__init__", false); ("optimize", false); ("descent_direction", true)]
  | type_RMSProp | type_AdaGrad =>
      [("__init__", false); ("descent_direction", false)]
  | type_SASA =>
      [("__init__", false); ("convergence_check", false); ("convergence_test", false)]
  end%string.

Fixpoint lookup_name (name : string) (ns : list (string * bool)) : option bool :=
  match ns with
  | [] => None
  | (n, a) :: ns' => if decide (n = name) then Some a else lookup_name name ns'
  end.

(** [getattr(cls, name)]: the first binding along the MRO; [Some true] when
    it is an abstract method. *)
Fixpoint lookup_along (name : string) (chain : list class) : option (class * bool) :=
  match chain with
  | [] => None
  | c :: rest =>
      match lookup_name name (namespace c) with
      | Some a => Some (c, a)
      | None => lookup_along name rest
      end
  end.

Definition class_getattr (c : class) (name : string) : option (class * bool) :=
  lookup_along name (mro c).

(** [cls.__abstractmethods__] as [ABCMeta] computes it when the class is
    created: the abstract names of the class body, and the abstract names of
    the base that still resolve to an abstract method. *)
Fixpoint abstractmethods_along (chain : list class) : list string :=
  match chain with
  | [] => []
  | c :: rest =>
      (filter (λ nb, nb.2 = true) (namespace c)).*1
      ++ filter (λ name, snd <$> lookup_along name (c :: rest) = Some true)
           (abstractmethods_along rest)
  end.

Definition abstractmethods (c : class) : list string := abstractmethods_along (mro c).

(** [object.__new__(cls)], which every class of the module inherits. *)
Definition py_new (c : class) : result unit :=
  match abstractmethods c with
  | [] => Ok ()
  | _ :: _ => Raise (TypeError "Can't instantiate abstract class")
  end.

Section Objects.
Context {F : Type}.

(** An instance: its class and its [__dict__].  The instances the module
    creates hold numbers only. *)
Record object : Type := { ob_type : class; ob_dict : gmap string F }.

Definition isinstance (o : object) (c : class) : bool := bool_decide (c ∈ mro (ob_type o)).

(** Reading [o.name] as a number: the instance dictionary first, then the
    classes along the MRO, whose bindings are all methods. *)
Definition getattr (o : object) (name : string) : result F :=
  match ob_dict o !! name with
  | Some x => Ok x
  | None =>
      match class_getattr (ob_type o) name with
      | Some _ => Raise (TypeError "unsupported operand type(s): 'method'")
      | None => Raise (AttributeError name)
      end
  end.

Definition setattr (o : object) (name : string) (x : F) : object :=
  {| ob_type := ob_type o; ob_dict := <[name := x]> (ob_dict o) |}.
End Objects.
Arguments object F : clear implicits.

(** ** The optimizers *)

(** The dictionary both optimizers return.  [variational_param_history] is
    read at the time of the return: one row per recorded iteration. *)
Record dict (F : Type) : Type := Dict {
  smoothed_opt_param : list F;
  variational_param_history : list (list F);
  value_history : list F;
}.
Arguments Dict {F} _ _ _.
Arguments smoothed_opt_param {F} _.
Arguments variational_param_history {F} _.
Arguments value_history {F} _.

(** [StochasticGradientOptimizer.__init__], which the strategies reach
    through [super().__init__(learning_rate)]. *)
Definition StochasticGradientOptimizer_init {F} (self : object F) (learning_rate : F)
  : object F :=
  setattr self "_learning_rate" learning_rate.

Module RMSProp.
Section Methods.
Context {F : Type} `{Float64 F}.

Definition __init__ (self : object F) (learning_rate beta jitter : F) : object F :=
  let self := setattr self "_beta" beta in
  let self := setattr self "_jitter" jitter in
  StochasticGradientOptimizer_init self learning_rate.

(** The call [RMSProp(learning_rate, beta, jitter)]. *)
Definition new (learning_rate beta jitter : F) : result (object F) :=
  let* _ := py_new type_RMSProp in
  Ok (__init__ {| ob_type := type_RMSProp; ob_dict := ∅ |} learning_rate beta jitter).

Definition default_beta : F := lit 0.9.
Definition default_jitter : F := lit 1e-8.

Definition descent_direction (self : object F) (grad : list F) (history : option (list F))
  : result (list F * list F) :=
  let history := match history with None => map fsq grad | Some h => h end in
  let* beta := getattr self "_beta" in
  let* history := broadcast fadd (map (λ h, h * beta)%f64 history)
                           (map (λ g2, (of_int 1 - beta) * g2)%f64 (map fsq grad)) in
  let* jitter := getattr self "_jitter" in
  let* descent_dir := broadcast fdiv grad (map (λ h, fsqrt (jitter + h)%f64) history) in
  Ok (descent_dir, history).
End Methods.
End RMSProp.

Module AdaGrad.
Section Methods.
Context {F : Type} `{Float64 F}.

Definition __init__ (self : object F) (learning_rate jitter : F) : object F :=
  let self := setattr self "_jitter" jitter in
  StochasticGradientOptimizer_init self learning_rate.

(** The call [AdaGrad(learning_rate, jitter)]. *)
Definition new (learning_rate jitter : F) : result (object F) :=
  let* _ := py_new type_AdaGrad in
  Ok (__init__ {| ob_type := type_AdaGrad; ob_dict := ∅ |} learning_rate jitter).

Definition default_jitter : F := lit 1e-8.

Definition descent_direction (self : object F) (grad : list F) (history : option (list F))
  : result (list F * list F) :=
  let history := match history with None => map fsq grad | Some h => h end in
  let* history := broadcast fadd history (map fsq grad) in
  let* jitter := getattr self "_jitter" in
  let* descent_dir := broadcast fdiv grad (map (λ h, fsqrt (jitter + h)%f64) history) in
  Ok (descent_dir, history).
End Methods.
End AdaGrad.

(** The method call [self.descent_direction(grad, history)], resolved on the
    class of [self].  The abstract method of [StochasticGradientOptimizer]
    returns [None], which the callers cannot unpack. *)
Definition descent_direction {F} `{Float64 F} (self : object F)
    (grad : list F) (history : option (list F)) : result (list F * list F) :=
  match class_getattr (ob_type self) "descent_direction" with
  | Some (type_RMSProp, _) => RMSProp.descent_direction self grad history
  | Some (type_AdaGrad, _) => AdaGrad.descent_direction self grad history
  | Some _ => Raise (TypeError "cannot unpack non-iterable NoneType object")
  | None => Raise (AttributeError "descent_direction")
  end.

Module StochasticGradientOptimizer.
Section Methods.
Context {F : Type} `{Float64 F}.

(** The local variables of [optimize] and the store of its arrays. *)
Record locals : Type := Locals {
  variational_param : loc;
  history : option (list F);
  value_history : list F;
  variational_param_history : list loc;
  descent_dir_history : list (list F);
  mem : store F;
}.

(** One iteration of the loop, for an [init_param] of dtype [dt]. *)
Definition body_of (dt : dtype) (self : object F) (objective : list F → F * list F)
    (t : Z) (s : locals) : result (locals * bool) :=
  let '(object_val, object_grad) := objective (deref (mem s) (variational_param s)) in
  let value_history := value_history s ++ [object_val] in
  let* (descent_dir, history) := descent_direction self object_grad (history s) in
  let* learning_rate := getattr self "_learning_rate" in
  let* updated := isub_into dt (deref (mem s) (variational_param s))
                 (map (λ d, learning_rate * d)%f64 descent_dir) in
  let mem := assign (variational_param s) updated (mem s) in
  Ok (Locals (variational_param s) (Some history) value_history
             (variational_param_history s ++ [variational_param s])
             (descent_dir_history s ++ [descent_dir]) mem,
      false).

Definition optimize_of (dt : dtype) (self : object F) (n_iters : Z)
    (objective : list F → F * list F) (init_param : list F) (smoothed_prop : F)
    : result (dict F) :=
  let '(variational_param, mem0) := alloc init_param [] in
  let* smoothing_window := py_int (of_int n_iters * smoothed_prop)%f64 in
  let* s := for_loop (body_of dt self objective) (seqZ 0 n_iters)
        (Locals variational_param None [] [] [] mem0) in
  let* variational_param_history := np_array (deref (mem s) <$> variational_param_history s) in
  match variational_param_history with
  | [] => Raise IndexError
  | row :: _ =>
      let variational_param_latter :=
        slice_from (- smoothing_window) variational_param_history in
      let smoothed_opt_param := np_mean_axis0 (length row) variational_param_latter in
      Ok (Dict smoothed_opt_param variational_param_history (value_history s))
  end.

(** The loop and the method on a float64 [init_param]. *)
Definition body : object F → (list F → F * list F) → Z → locals → result (locals * bool) :=
  body_of dtype_float64.
Definition optimize
  : object F → Z → (list F → F * list F) → list F → F → result (dict F) :=
  optimize_of dtype_float64.

Definition default_smoothed_prop : F := lit 0.2.
End Methods.
Arguments locals F : clear implicits.
End StochasticGradientOptimizer.

Module SASA.
Section Methods.
Context {F : Type} `{Float64 F} `{Library F}.

(** The attributes [__init__] sets on a controller. *)
Record self_ : Type := Self {
  _sgo : object F;
  _theta : F;
  _rho : F;
  _W0 : Z;
  _t_check : Z;
  _delta : F;
  _eps : F;
}.

Definition __init__ (sgo : object F) (theta rho : F) (W0 t_check : Z) (delta eps : F)
  : result self_ :=
  if negb (isinstance sgo type_StochasticGradientOptimizer)
  then Raise (ValueError "sgo must be a subclass of StochasticGradientOptimizer")
  else Ok (Self sgo theta rho W0 t_check delta eps).

(** The call [SASA(sgo, theta, rho, W0, t_check, delta, eps)]. *)
Definition new (sgo : object F) (theta rho : F) (W0 t_check : Z) (delta eps : F)
  : result self_ :=
  let* _ := py_new type_SASA in
  __init__ sgo theta rho W0 t_check delta eps.

Definition default_W0 : Z := 1000.
Definition default_t_check : Z := 100.
Definition default_delta : F := lit 0.05.
Definition default_eps : F := lit 1e-3.

(** [m = b = np.floor(np.sqrt(W)).astype(int)] *)
Definition batch_size (W : Z) : Z := floor_int (fsqrt (of_int W)).

Definition convergence_check (self : self_) (W : Z) (Delta_history : list F)
  : result bool :=
  let m := batch_size W in
  let b := m in
  let* Delta_reshaped := np_reshape (slice_from (- (m * b)) Delta_history) m b in
  let mu_n := np_mean2 Delta_reshaped in
  let Delta_batch_means := np_mean_axis1 Delta_reshaped in
  let sigma_n :=
    fsqrt ((of_int m / of_int (b - 1))
           * np_sum (map (λ x, fsq (x - mu_n)) Delta_batch_means))%f64 in
  let sd_error :=
    (tdist_ppf (of_int 1 - _delta self / of_int 2) (b - 1)
     * (sigma_n / fsqrt (of_int (m * b))))%f64 in
  let lower := (mu_n - sd_error)%f64 in
  let upper := (mu_n + sd_error)%f64 in
  if (lower <? of_int 0)%f64 && (of_int 0 <? upper)%f64 then Ok true else Ok false.

(** The local variables of [convergence_test] and the store of its
    arrays; [SKL] is [None] until the first assignment to it. *)
Record locals : Type := Locals {
  t0 : Z;
  history : option (list F);
  learning_rate : F;
  variational_param : loc;
  variational_param_mean : list F;
  value_history : list F;
  Delta_history : list F;
  variational_param_history : list loc;
  SKL : option F;
  mem : store F;
}.

(** [W = np.max([np.min([t-t0, W0]), np.ceil(theta*(t-t0)).astype(int)])] *)
Definition window (self : self_) (t t0 : Z) : Z :=
  Z.max (Z.min (t - t0) (_W0 self)) (ceil_int (_theta self * of_int (t - t0))%f64).

(** [(W >= self._W0) and (t % self._t_check == 0)] *)
Definition check_due (self : self_) (W t : Z) : result bool :=
  if (_W0 self <=? W)%Z then
    if (_t_check self =? 0)%Z then Raise ZeroDivisionError
    else Ok (t `mod` _t_check self =? 0)%Z
  else Ok false.

(** One iteration of the loop, for a float64 [init_param]; the flag says
    whether it ended in [break] (the message printed before the [break] is
    not part of the state).  [check] is what the method call
    [self.convergence_check] resolves to. *)
Definition body_with (check : Z → list F → result bool)
    (self : self_) (objective : list F → F * list F)
    (t : Z) (s : locals) : result (locals * bool) :=
  let '(object_val, object_grad) := objective (deref (mem s) (variational_param s)) in
  let value_history := value_history s ++ [object_val] in
  let* (descent_dir, history) := descent_direction (_sgo self) object_grad (history s) in
  let* updated := isub (deref (mem s) (variational_param s))
                 (map (λ d, learning_rate s * d)%f64 descent_dir) in
  let mem := assign (variational_param s) updated (mem s) in
  let variational_param_history := variational_param_history s ++ [variational_param s] in
  let* dot := np_dot (deref mem (variational_param s)) descent_dir in
  let Delta := (dot - lit 0.5 * learning_rate s * np_sum (map fsq descent_dir))%f64 in
  let Delta_history := Delta_history s ++ [Delta] in
  let W := window self t (t0 s) in
  let* due := check_due self W t in
  let* s' := (if due then
          let* convg := check W Delta_history in
          if convg then
            let m := batch_size W in
            let b := m in
            let learning_rate := (_rho self * learning_rate s)%f64 in
            let variational_param_mean_prev := variational_param_mean s in
            let* latter := np_array (deref mem <$> slice_from (- (m * b)) variational_param_history) in
            let variational_param_mean :=
              np_mean_axis0 (length (deref mem (variational_param s))) latter in
            let SKL :=
              (MFGaussian_kl variational_param_mean_prev variational_param_mean
               + MFGaussian_kl variational_param_mean variational_param_mean_prev)%f64 in
            Ok (Locals t (Some history) learning_rate (variational_param s)
                       variational_param_mean value_history Delta_history
                       variational_param_history (Some SKL) mem)
          else
            Ok (Locals (t0 s) (Some history) (learning_rate s) (variational_param s)
                       (variational_param_mean s) value_history Delta_history
                       variational_param_history (SKL s) mem)
        else
          Ok (Locals (t0 s) (Some history) (learning_rate s) (variational_param s)
                     (variational_param_mean s) value_history Delta_history
                     variational_param_history (SKL s) mem)) in
  match SKL s' with
  | None => Raise (UnboundLocalError "SKL")
  | Some skl => Ok (s', (skl / _rho self <? _eps self)%f64)
  end.

(** On an instance of [SASA] the method is [SASA.convergence_check]. *)
Definition body (self : self_)
  : (list F → F * list F) → Z → locals → result (locals * bool) :=
  body_with (convergence_check self) self.

Definition convergence_test (self : self_) (n_iters : Z)
    (objective : list F → F * list F) (init_param : list F) : result (dict F) :=
  let* learning_rate := getattr (_sgo self) "learning_rate" in
  let '(variational_param, mem0) := alloc init_param [] in
  (* [variational_param_mean = init_param.copy()] is only ever rebound,
     never updated in place: it is kept by value. *)
  let* s := for_loop (body self objective) (seqZ 0 n_iters)
        (Locals 0 None learning_rate variational_param init_param
                [] [] [] None mem0) in
  Ok (Dict (variational_param_mean s)
           (deref (mem s) <$> variational_param_history s)
           (value_history s)).
End Methods.
Arguments self_ F : clear implicits.
Arguments locals F : clear implicits.
End SASA.

(** ** The behaviour the specification describes *)

Module Spec.
Section Spec.
Context {F : Type} `{Float64 F} `{Library F}.

(** RMSProp: [acc' = beta*acc + (1-beta)*grad^2], element by element. *)
Definition rmsprop_acc (beta : F) (acc grad : list F) : list F :=
  zip_with (λ a g, beta * a + (of_int 1 - beta) * (g * g))%f64 acc grad.

(** AdaGrad: [acc' = acc + grad^2], element by element. *)
Definition adagrad_acc (acc grad : list F) : list F :=
  zip_with (λ a g, a + g * g)%f64 acc grad.

(** [direction = grad / sqrt(acc' + jitter)], element by element. *)
Definition direction (jitter : F) (grad acc' : list F) : list F :=
  zip_with (λ g a', g / fsqrt (a' + jitter))%f64 grad acc'.

(** The accumulator a call starts from: [grad^2] on the first call. *)
Definition initial_acc (grad : list F) (acc : option (list F)) : list F :=
  match acc with
  | None => map (λ g, g * g)%f64 grad
  | Some a => a
  end.

(** A sum of the numbers of a list: what adding them up gives, each number
    once, in some order and with some bracketing; the empty sum is 0.  In
    float64 the value depends on both, and the specification fixes
    neither. *)
Inductive sum_of : list F → F → Prop :=
| sum_of_nil : sum_of [] (of_int 0)
| sum_of_one (x : F) : sum_of [x] x
| sum_of_app (l1 l2 : list F) (s1 s2 : F) :
    sum_of l1 s1 → sum_of l2 s2 → sum_of (l1 ++ l2) (s1 + s2)%f64
| sum_of_perm (l l' : list F) (s : F) : l ≡ₚ l' → sum_of l s → sum_of l' s.

(** A mean of the numbers of a list: a sum of them over their count. *)
Definition mean_of (l : list F) (mu : F) : Prop :=
  ∃ s, sum_of l s ∧ mu = (s / of_int (Z.of_nat (length l)))%f64.

(** The stationarity test on the last [m*b] Delta values, [m = b =
    floor(sqrt(W))]: batch [i] holds the values [i*b .. i*b+b-1] of that
    window. *)
Definition last_values (k : nat) (Delta_history : list F) : list F :=
  drop (length Delta_history - k) Delta_history.

Definition batch (b : nat) (values : list F) (i : nat) : list F :=
  take b (drop (i * b) values).

(** [verdict] is an answer of the test: for a grand mean [mu_n] of the
    values, a mean of each of the [m] batches, and a sum of the squared
    deviations of the batch means from [mu_n], it says whether zero lies
    strictly inside the Student-t interval. *)
Definition stationary (delta : F) (W : Z) (Delta_history : list F) (verdict : bool)
  : Prop :=
  let b := floor_int (fsqrt (of_int W)) in
  let m := b in
  let values := last_values (Z.to_nat (m * b)) Delta_history in
  ∃ (mu_n : F) (batch_means : list F) (sum_sq : F),
    mean_of values mu_n
    ∧ Forall2 (λ i batch_mean, mean_of (batch (Z.to_nat b) values i) batch_mean)
        (seq 0 (Z.to_nat m)) batch_means
    ∧ sum_of ((λ batch_mean, (batch_mean - mu_n) * (batch_mean - mu_n))%f64
                <$> batch_means) sum_sq
    ∧ let sigma2_n := (of_int m / of_int (b - 1) * sum_sq)%f64 in
      let half_width :=
        (tdist_ppf (of_int 1 - delta / of_int 2) (b - 1)
         * (fsqrt sigma2_n / fsqrt (of_int (m * b))))%f64 in
      verdict = (mu_n - half_width <? of_int 0)%f64 && (of_int 0 <? mu_n + half_width)%f64.
End Spec.
End Spec.

(** A sequence of calls to [descent_direction] that threads the accumulator
    each call returns into the next one, as the two loops do; the result
    lists the direction and the accumulator of every call. *)
Fixpoint descent_directions {F} `{Float64 F} (self : object F)
    (grads : list (list F)) (history : option (list F))
    : result (list (list F * list F)) :=
  match grads with
  | [] => Ok []
  | grad :: grads' =>
      let* (descent_dir, history') := descent_direction self grad history in
      let* rest := descent_directions self grads' (Some history') in
      Ok ((descent_dir, history') :: rest)
  end.

(** The parameter vector as it is at the end of iteration [k - 1] of
    [StochasticGradientOptimizer.optimize]: the contents of the array
    [variational_param] after [k] passes through the body of the loop. *)
Definition param_after {F} `{Float64 F} (self : object F)
    (objective : list F → F * list F) (init_param : list F) (k : nat)
    : result (list F) :=
  let '(variational_param, mem0) := alloc init_param [] in
  let* s := for_loop (StochasticGradientOptimizer.body self objective)
              (seqZ 0 (Z.of_nat k))
              (StochasticGradientOptimizer.Locals variational_param None [] [] [] mem0) in
  Ok (deref (StochasticGradientOptimizer.mem s)
            (StochasticGradientOptimizer.variational_param s)).

(** The snapshots the specification speaks of: the parameter vector at the
    end of each of the first [n] iterations, and the mean of the last [k]
    of a list of snapshots of dimension [d]. *)
Fixpoint collect {A} (rs : list (result A)) : result (list A) :=
  match rs with
  | [] => Ok []
  | r :: rs' =>
      let* a := r in
      let* l := collect rs' in
      Ok (a :: l)
  end.

Definition snapshots {F} `{Float64 F} (self : object F)
    (objective : list F → F * list F) (init_param : list F) (n : nat)
    : result (list (list F)) :=
  collect (param_after self objective init_param <$> seq 1 n).

Definition mean_of_last {F} `{Float64 F} (d k : nat) (snapshots : list (list F))
  : list F :=
  np_mean_axis0 d (drop (length snapshots - k) snapshots).

(** The number of rows of [variational_param_history[-w:]] when the history
    has [n] rows. *)
Definition rows_averaged (w : Z) (n : nat) : nat :=
  if decide (w = 0)%Z then n
  else if decide (0 < w)%Z then Nat.min (Z.to_nat w) n
  else (n - Z.to_nat (- w))%nat.

(** ** Laws of the scalars *)

(** Addition and multiplication commute (in binary64 as on the reals). *)
Class CommArith (F : Type) `{Float64 F} : Prop := {
  fadd_comm : ∀ x y : F, (x + y = y + x)%f64;
  fmul_comm : ∀ x y : F, (x * y = y * x)%f64;
}.

(** The sum of a vector is a sum of its elements, whatever the order in
    which the library adds them. *)
Class SumLaws (F : Type) `{Float64 F} : Prop := {
  fsum_sum_of : ∀ l : list F, Spec.sum_of l (fsum l);
}.

(** The scalars are real numbers: every operation agrees with the one on
    [R] wherever that one is defined.  Nothing is said of a quotient by zero
    or of the square root of a negative number.  Binary64 rounds and is no
    such arithmetic: what is proved under this class is a property of the
    algorithm on the reals, not of a run in float64. *)
Class RealArith (F : Type) `{Float64 F} : Type := {
  to_R : F → R;
  to_R_inj : ∀ x y : F, to_R x = to_R y → x = y;
  to_R_of_int : ∀ z : Z, to_R (of_int z) = IZR z;
  to_R_add : ∀ x y : F, to_R (x + y)%f64 = (to_R x + to_R y)%R;
  to_R_sub : ∀ x y : F, to_R (x - y)%f64 = (to_R x - to_R y)%R;
  to_R_mul : ∀ x y : F, to_R (x * y)%f64 = (to_R x * to_R y)%R;
  to_R_div : ∀ x y : F, to_R y ≠ 0%R → to_R (x / y)%f64 = (to_R x / to_R y)%R;
  to_R_sqrt : ∀ x : F, (0 <= to_R x)%R → to_R (fsqrt x) = R_sqrt.sqrt (to_R x);
  flt_spec : ∀ x y : F, (x <? y)%f64 = true ↔ (to_R x < to_R y)%R;
  floor_int_spec : ∀ x : F,
    (IZR (floor_int x) <= to_R x)%R ∧ (to_R x < IZR (floor_int x) + 1)%R;
  ceil_int_spec : ∀ x : F,
    (to_R x <= IZR (ceil_int x))%R ∧ (IZR (ceil_int x) - 1 < to_R x)%R;
}.

(** The real numbers are such scalars. *)
#[global, refine] Instance real_arith : RealArith R := {| to_R := λ x, x |}.
Proof.
  all: cbn; try done.
  - intros x y. unfold Reals64.ltb. by destruct (Rlt_dec x y).
  - intros x. unfold Reals64.floor. destruct (base_Int_part x). split; lra.
  - intros x. unfold Reals64.ceil. rewrite opp_IZR.
    destruct (base_Int_part (- x)). split; lra.
Defined.

(** ** Orders on accumulators *)

Section Order.
Context {F : Type} `{Float64 F}.

(** [a'] is nowhere below [a]: no element of [a'] is less than the element
    of [a] at the same index. *)
Definition elementwise_le (a a' : list F) : Prop :=
  Forall2 (λ x x', (x' <? x)%f64 = false) a a'.

(** Each accumulator of the sequence is nowhere below the one before it. *)
Definition nondecreasing (accs : list (list F)) : Prop :=
  ∀ (i : nat) (a a' : list F),
    accs !! i = Some a → accs !! S i = Some a' → elementwise_le a a'.
End Order.

(** ** Concrete inputs *)

Module Example.
Import Binary64.
Open Scope float_scope.
#[local] Set Warnings "-inexact-float".

(** Strategies as their constructors build them. *)
Definition rmsprop : object float :=
  RMSProp.__init__ {| ob_type := type_RMSProp; ob_dict := ∅ |}
    0.5 RMSProp.default_beta RMSProp.default_jitter.
Definition adagrad : object float :=
  AdaGrad.__init__ {| ob_type := type_AdaGrad; ob_dict := ∅ |} 1 AdaGrad.default_jitter.
Definition rmsprop_no_jitter : object float :=
  RMSProp.__init__ {| ob_type := type_RMSProp; ob_dict := ∅ |} 0.5 RMSProp.default_beta 0.
Definition rmsprop_infinite_beta : object float :=
  RMSProp.__init__ {| ob_type := type_RMSProp; ob_dict := ∅ |}
    0.5 infinity RMSProp.default_jitter.

(** [rmsprop] after the assignment [rmsprop.learning_rate = 0.5]. *)
Definition rmsprop_with_rate : object float := setattr rmsprop "learning_rate" 0.5.

(** The objective [|p|^2] with its gradient [2 p]. *)
Definition quadratic (p : list float) : float * list float :=
  (np_sum (map fsq p), map (λ x, 2 * x) p).

(** Values of [scipy.stats.t.ppf(0.975, df)], and the KL divergence
    between two Gaussians of unit variance with the given means. *)
#[global] Instance library : Library float := {|
  tdist_ppf q df :=
    if PrimFloat.eqb q 0.975 then
      match df with
      | 1%Z => 12.706204736432095
      | 2%Z => 4.302652729911275
      | 3%Z => 3.182446305284263
      | _ => nan
      end
    else nan;
  MFGaussian_kl a b := 0.5 * np_sum (map fsq (zip_with PrimFloat.sub a b));
|}.

(** Controllers with a short window, wrapping [rmsprop_with_rate] and
    [rmsprop]. *)
Definition sasa : SASA.self_ float :=
  SASA.Self rmsprop_with_rate 0.5 0.5 4 1 SASA.default_delta SASA.default_eps.
Definition sasa_rmsprop : SASA.self_ float :=
  SASA.Self rmsprop 0.5 0.5 SASA.default_W0 SASA.default_t_check
    SASA.default_delta SASA.default_eps.

(** The locals of [convergence_test] on entering iteration 4 of a run. *)
Definition at_iteration_4 : SASA.locals float :=
  SASA.Locals 0 (Some [1; 1]) 0.5 0%nat [1; -2] [0; 0; 0] [-1; -1; 1]
    [0%nat; 0%nat; 0%nat] None [[0.1; -0.2]].

(** A controller whose window condition holds from [W = 1] on. *)
Definition sasa_short : SASA.self_ float :=
  SASA.Self rmsprop_with_rate 0.5 0.5 1 1 SASA.default_delta SASA.default_eps.

(** A controller whose window condition holds from [W = 3] on. *)
Definition sasa_three : SASA.self_ float :=
  SASA.Self rmsprop_with_rate 0.5 0.5 3 1 SASA.default_delta SASA.default_eps.

(** [sasa] with the threshold [eps = 1000] of the stopping rule. *)
Definition sasa_loose : SASA.self_ float :=
  SASA.Self rmsprop_with_rate 0.5 0.5 4 1 SASA.default_delta 1000.
End Example.

Module RealExample.
Open Scope R_scope.

Definition rmsprop : object R :=
  RMSProp.__init__ {| ob_type := type_RMSProp; ob_dict := ∅ |}
    1 RMSProp.default_beta RMSProp.default_jitter.
End RealExample.

Module RealRun.
Open Scope R_scope.

(** A library on the reals: a constant quantile, and the KL divergence
    between two Gaussians of unit variance with the given means. *)
Definition library : Library R := {|
  tdist_ppf q df := 2;
  MFGaussian_kl a b := 1 / 2 * np_sum (map fsq (zip_with Rminus a b));
|}.

(** A controller with [theta = 1/2], [W0 = 4] and [t_check = 1]. *)
Definition sasa : SASA.self_ R :=
  SASA.Self RealExample.rmsprop (1 / 2) (1 / 2) 4 1 SASA.default_delta SASA.default_eps.
End RealRun.

(** * Properties *)

(** ** The strategies as objects *)

Section ObjectFacts.
Context {F : Type} `{Float64 F}.

Lemma RMSProp_new_eq (lr beta jitter : F) :
  RMSProp.new lr beta jitter
  = Ok {| ob_type := type_RMSProp;
          ob_dict := <["_learning_rate" := lr]>
                       (<["_jitter" := jitter]> (<["_beta" := beta]> ∅)) |}.
Proof. reflexivity. Qed.

Lemma AdaGrad_new_eq (lr jitter : F) :
  AdaGrad.new lr jitter
  = Ok {| ob_type := type_AdaGrad;
          ob_dict := <["_learning_rate" := lr]> (<["_jitter" := jitter]> ∅) |}.
Proof. reflexivity. Qed.

Lemma RMSProp_attributes (lr beta jitter : F) (sgo : object F) :
  RMSProp.new lr beta jitter = Ok sgo →
  ob_type sgo = type_RMSProp
  ∧ getattr sgo "_beta" = Ok beta
  ∧ getattr sgo "_jitter" = Ok jitter
  ∧ getattr sgo "_learning_rate" = Ok lr
  ∧ getattr sgo "learning_rate" = Raise (AttributeError "learning_rate").
Proof.
  rewrite RMSProp_new_eq. intros [= <-].
  unfold getattr; cbn [ob_type ob_dict].
  repeat split; by simplify_map_eq.
Qed.

Lemma AdaGrad_attributes (lr jitter : F) (sgo : object F) :
  AdaGrad.new lr jitter = Ok sgo →
  ob_type sgo = type_AdaGrad
  ∧ getattr sgo "_jitter" = Ok jitter
  ∧ getattr sgo "_learning_rate" = Ok lr
  ∧ getattr sgo "learning_rate" = Raise (AttributeError "learning_rate").
Proof.
  rewrite AdaGrad_new_eq. intros [= <-].
  unfold getattr; cbn [ob_type ob_dict].
  repeat split; by simplify_map_eq.
Qed.
End ObjectFacts.

(** ** Construction of the controller *)

Section Construction.
Context {F : Type} `{Float64 F} `{Library F}.

(** C9 (the code departs from the claim).  The call [SASA(sgo, ...)] never
    yields a controller: [SASA] inherits the abstract method [optimize] of
    [Optimizer] and does not define it, so creating the instance raises
    [TypeError] before [__init__] runs, whatever [sgo] is. *)
Theorem SASA_new_raises_TypeError
    (sgo : object F) (theta rho : F) (W0 t_check : Z) (delta eps : F) :
  abstractmethods type_SASA = ["optimize"]
  ∧ SASA.new sgo theta rho W0 t_check delta eps
    = Raise (TypeError "Can't instantiate abstract class").
Proof. split; reflexivity. Qed.
End Construction.

(** ** Entering [convergence_test] *)

Section Entering.
Context {F : Type} `{Float64 F} `{Library F}.

(** C2.  A controller that wraps an [RMSProp] or an [AdaGrad] built by its
    constructor raises [AttributeError] on reading [learning_rate], for
    every [n_iters], objective and initial parameter: the constructors bind
    [_learning_rate] in the instance, and neither the instance nor a class
    on its MRO binds [learning_rate].  The exception is raised before the
    loop, whose body and iteration count the result does not depend on. *)
Theorem convergence_test_AttributeError
    (self : SASA.self_ F) (n_iters : Z) (objective : list F → F * list F)
    (init_param : list F) :
  (∃ lr beta jitter, RMSProp.new lr beta jitter = Ok (SASA._sgo self))
  ∨ (∃ lr jitter, AdaGrad.new lr jitter = Ok (SASA._sgo self)) →
  is_Ok (getattr (SASA._sgo self) "_learning_rate") = true
  ∧ ob_dict (SASA._sgo self) !! "learning_rate" = None
  ∧ class_getattr (ob_type (SASA._sgo self)) "learning_rate" = None
  ∧ SASA.convergence_test self n_iters objective init_param
    = Raise (AttributeError "learning_rate").
Proof.
  intros Hsgo. unfold SASA.convergence_test.
  assert (ob_dict (SASA._sgo self) !! "learning_rate" = None
          ∧ class_getattr (ob_type (SASA._sgo self)) "learning_rate" = None
          ∧ is_Ok (getattr (SASA._sgo self) "_learning_rate") = true)
    as (Hdict & Hclass & Hprivate).
  { destruct Hsgo as [(lr & beta & jitter & Hnew) | (lr & jitter & Hnew)].
    - pose proof (RMSProp_attributes _ _ _ _ Hnew) as (_ & _ & _ & -> & _).
      rewrite RMSProp_new_eq in Hnew. injection Hnew as <-. cbn [ob_dict ob_type].
      by simplify_map_eq.
    - pose proof (AdaGrad_attributes _ _ _ Hnew) as (_ & _ & -> & _).
      rewrite AdaGrad_new_eq in Hnew. injection Hnew as <-. cbn [ob_dict ob_type].
      by simplify_map_eq. }
  repeat split; try done.
  unfold getattr. by rewrite Hdict, Hclass.
Qed.
End Entering.

Lemma convergence_test_AttributeError_witness :
  SASA.convergence_test Example.sasa_rmsprop 50000 Example.quadratic
    [0; 0; 1; 1]%float
  = Raise (AttributeError "learning_rate").
Proof.
  apply (convergence_test_AttributeError Example.sasa_rmsprop).
  left. exists 0.5%float, RMSProp.default_beta, RMSProp.default_jitter.
  reflexivity.
Defined.

(** ** The stopping rule on the first iteration *)

Section Arrays.
Context {F : Type} `{Float64 F}.

Lemma isub_same_shape (a b : list F) :
  length b = length a → isub a b = Ok (zip_with fsub a b).
Proof. intros Hlen. unfold isub. by rewrite decide_True. Qed.

Lemma isub_length (a b c : list F) : isub a b = Ok c → length c = length a.
Proof.
  unfold isub. destruct (decide (length b = length a)) as [Hlen|Hlen].
  - intros [= <-]. rewrite length_zip_with. lia.
  - destruct b as [|y [|? ?]]; intros [= <-]. by rewrite length_map.
Qed.

Lemma np_dot_same_shape (a b : list F) :
  length a = length b → np_dot a b = Ok (fdot a b).
Proof. intros Hlen. unfold np_dot. by rewrite decide_True. Qed.

Lemma deref_alloc (a : list F) : deref (alloc a []).2 (alloc a []).1 = a.
Proof. reflexivity. Qed.

Lemma seqZ_first (n : Z) : (1 ≤ n)%Z → seqZ 0 n = 0%Z :: seqZ 1 (n - 1).
Proof. intros Hn. by rewrite seqZ_cons by lia. Qed.
End Arrays.

Section FirstIteration.
Context {F : Type} `{Float64 F} `{Library F}.

(** C1 (the code departs from the claim).  Once [learning_rate] can be
    read, a run of at least one iteration whose window is still short of
    [W0] on iteration 0 ends there in [UnboundLocalError]: no reduction
    has assigned [SKL], and the stopping rule reads it all the same.  The
    strategy is assumed to return a direction of the shape of the
    parameter, so that nothing raises earlier. *)
Theorem convergence_test_unbound_SKL
    (self : SASA.self_ F) (n_iters : Z) (objective : list F → F * list F)
    (init_param : list F) (lr : F) (descent_dir history : list F) :
  getattr (SASA._sgo self) "learning_rate" = Ok lr →
  (1 ≤ n_iters)%Z →
  (SASA.window self 0 0 < SASA._W0 self)%Z →
  descent_direction (SASA._sgo self) (objective init_param).2 None
    = Ok (descent_dir, history) →
  length descent_dir = length init_param →
  SASA.convergence_test self n_iters objective init_param
  = Raise (UnboundLocalError "SKL").
Proof.
  intros Hlr Hn HW Hdir Hshape.
  unfold SASA.convergence_test. rewrite Hlr. cbn [bind alloc length app].
  rewrite seqZ_first by done. cbn [for_loop].
  unfold SASA.body, SASA.body_with.
  cbn [SASA.mem SASA.variational_param SASA.history SASA.learning_rate SASA.t0].
  change (deref [init_param] 0%nat) with init_param.
  destruct (objective init_param) as [object_val object_grad]; cbn [snd] in Hdir.
  rewrite Hdir. cbn [bind].
  rewrite isub_same_shape by by rewrite length_map.
  cbn [bind].
  change (deref (assign 0%nat ?a [init_param]) 0%nat) with a.
  rewrite np_dot_same_shape by (rewrite length_zip_with, length_map; lia).
  cbn [bind]. unfold SASA.check_due.
  destruct (Z.leb_spec (SASA._W0 self) (SASA.window self 0 0)) as [Hle|_]; [lia|].
  reflexivity.
Qed.
End FirstIteration.

Lemma convergence_test_unbound_SKL_witness :
  SASA.convergence_test Example.sasa 1 Example.quadratic [1; -2]%float
  = Raise (UnboundLocalError "SKL").
Proof.
  eapply (convergence_test_unbound_SKL Example.sasa 1 Example.quadratic
            [1; -2]%float 0.5%float).
  - reflexivity.
  - lia.
  - vm_compute. reflexivity.
  - vm_compute. reflexivity.
  - reflexivity.
Defined.

(** ** Learning-rate reductions *)

Lemma bind_Ok {A B} (m : result A) (k : A → result B) (b : B) :
  bind m k = Ok b → ∃ a, m = Ok a ∧ k a = Ok b.
Proof. destruct m as [a|e]; [eauto | discriminate]. Qed.

Tactic Notation "bind_inv" hyp(H) "as" ident(a) ident(Ha) :=
  apply bind_Ok in H as (a & Ha & H).

Section Reductions.
Context {F : Type} `{Float64 F} `{Library F}.

Lemma check_due_true (self : SASA.self_ F) (W t : Z) :
  SASA.check_due self W t = Ok true ↔
  (SASA._W0 self ≤ W)%Z ∧ SASA._t_check self ≠ 0%Z
  ∧ (t `mod` SASA._t_check self = 0)%Z.
Proof.
  unfold SASA.check_due.
  destruct (Z.leb_spec (SASA._W0 self) W);
    destruct (Z.eqb_spec (SASA._t_check self) 0);
    try destruct (Z.eqb_spec (t `mod` SASA._t_check self) 0);
    split; intros; try discriminate; try lia; try done.
Qed.

Lemma check_due_false (self : SASA.self_ F) (W t : Z) :
  SASA.check_due self W t = Ok false →
  ¬ ((SASA._W0 self ≤ W)%Z ∧ (t `mod` SASA._t_check self = 0)%Z).
Proof.
  unfold SASA.check_due.
  destruct (Z.leb_spec (SASA._W0 self) W);
    destruct (Z.eqb_spec (SASA._t_check self) 0);
    try destruct (Z.eqb_spec (t `mod` SASA._t_check self) 0);
    intros; try discriminate; lia.
Qed.

(** C6.  From every state of the loop of [convergence_test], an iteration
    that completes changes the learning rate exactly when the window
    condition [W >= W0] holds, [t] is a multiple of [t_check] and the
    stationarity test on the Delta values recorded so far returns [True];
    the new rate is then [rho] times the previous one, and otherwise the
    rate is the previous one.  In particular no reduction happens while
    [W < W0]. *)
Theorem learning_rate_reduction
    (self : SASA.self_ F) (objective : list F → F * list F) (t : Z)
    (s s' : SASA.locals F) (stop : bool) :
  SASA.body self objective t s = Ok (s', stop) →
  let W := SASA.window self t (SASA.t0 s) in
  let reduction :=
    (SASA._W0 self ≤ W)%Z ∧ (t `mod` SASA._t_check self = 0)%Z
    ∧ SASA.convergence_check self W (SASA.Delta_history s') = Ok true in
  (reduction →
     SASA.learning_rate s' = (SASA._rho self * SASA.learning_rate s)%f64)
  ∧ (¬ reduction → SASA.learning_rate s' = SASA.learning_rate s).
Proof.
  intros Hbody W reduction. subst reduction.
  unfold SASA.body, SASA.body_with in Hbody.
  destruct (objective _) as [object_val object_grad].
  bind_inv Hbody as dir Hdir. destruct dir as [descent_dir history].
  bind_inv Hbody as updated Hupdated.
  bind_inv Hbody as dot Hdot.
  bind_inv Hbody as due Hdue. fold W in Hdue, Hbody.
  bind_inv Hbody as s1 Hs1.
  assert (s1 = s') as ->.
  { destruct (SASA.SKL s1); [|discriminate]. by injection Hbody as -> _. }
  clear Hbody. destruct due.
  - apply check_due_true in Hdue as (HW & Htc & Hmod).
    bind_inv Hs1 as convg Hconvg. destruct convg.
    + bind_inv Hs1 as latter Hlatter.
      injection Hs1 as <-. cbn [SASA.learning_rate SASA.Delta_history].
      split; [done|]. intros Hnot. by destruct Hnot.
    + injection Hs1 as <-. cbn [SASA.learning_rate SASA.Delta_history].
      split; [|done]. intros (_ & _ & Hcheck). congruence.
  - apply check_due_false in Hdue. injection Hs1 as <-.
    cbn [SASA.learning_rate SASA.Delta_history].
    split; [|done]. intros (? & ? & _). by destruct Hdue.
Qed.
End Reductions.

Lemma learning_rate_reduction_witness :
  ∃ s', SASA.body Example.sasa Example.quadratic 4 Example.at_iteration_4 = Ok (s', false)
        ∧ SASA.learning_rate s' = 0.25%float.
Proof.
  eexists. split; [vm_compute; reflexivity|].
  refine (proj1 (learning_rate_reduction Example.sasa Example.quadratic 4
                   Example.at_iteration_4 _ false _) _).
  - vm_compute. reflexivity.
  - vm_compute. by repeat split.
Defined.

(** ** Sums *)

(** The pairwise summation adds up every element once. *)
Section Sums.
Context {F : Type} `{Float64 F}.

Lemma sum_of_foldl (l rest : list F) (s : F) :
  Spec.sum_of l s → Spec.sum_of (l ++ rest) (foldl fadd s rest).
Proof.
  revert l s. induction rest as [|x rest IH]; intros l s Hs; cbn [foldl].
  - by rewrite app_nil_r.
  - replace (l ++ x :: rest) with ((l ++ [x]) ++ rest) by by rewrite <- app_assoc.
    apply IH. apply Spec.sum_of_app; [done | constructor].
Qed.

Lemma sum_of_zip_with (Ls : list (list F)) (r blk : list F) :
  Forall2 Spec.sum_of Ls r → length r = length blk →
  Forall2 Spec.sum_of (zip_with (λ L x, L ++ [x]) Ls blk) (zip_with fadd r blk).
Proof.
  intros HLs. revert blk.
  induction HLs as [|L x Ls r HL HLs IH]; intros [|y blk] Hlen; try discriminate;
    cbn [zip_with]; constructor.
  - apply Spec.sum_of_app; [done | constructor].
  - apply IH. by injection Hlen.
Qed.

Lemma concat_zip_with_snoc (Ls : list (list F)) (blk : list F) :
  length Ls = length blk →
  concat (zip_with (λ L x, L ++ [x]) Ls blk) ≡ₚ concat Ls ++ blk.
Proof.
  revert blk. induction Ls as [|L Ls IH]; intros [|y blk] Hlen; try discriminate; [done|].
  cbn [zip_with concat]. rewrite IH by by injection Hlen.
  rewrite <- !app_assoc. f_equiv. cbn [app]. by rewrite Permutation_middle.
Qed.

Lemma sum_of_add_blocks (blocks : nat) (Ls : list (list F)) (r a : list F) :
  Forall2 Spec.sum_of Ls r → length r = 8%nat → (8 * blocks ≤ length a)%nat →
  ∃ Ls', Forall2 Spec.sum_of Ls' (add_blocks fadd blocks r a)
         ∧ length (add_blocks fadd blocks r a) = 8%nat
         ∧ concat Ls' ≡ₚ concat Ls ++ take (8 * blocks) a.
Proof.
  revert Ls r a. induction blocks as [|blocks IH]; intros Ls r a HLs Hr Ha; cbn [add_blocks].
  - exists Ls. split; [done|]. split; [done|]. by rewrite Nat.mul_0_r, take_0, app_nil_r.
  - assert (length (take 8 a) = 8%nat) as Hblk by (rewrite length_take; lia).
    destruct (IH (zip_with (λ L x, L ++ [x]) Ls (take 8 a)) (zip_with fadd r (take 8 a))
                (drop 8 a)) as (Ls' & HLs' & Hlen & Hperm).
    + apply sum_of_zip_with; [done | lia].
    + rewrite length_zip_with. lia.
    + rewrite length_drop. lia.
    + exists Ls'. split; [done|]. split; [done|]. rewrite Hperm.
      rewrite concat_zip_with_snoc by (apply Forall2_length in HLs; lia).
      rewrite <- app_assoc. f_equiv.
      replace (8 * S blocks)%nat with (8 + 8 * blocks)%nat by lia.
      by rewrite <- take_take_drop.
Qed.

Lemma sum_of_add8 (Ls : list (list F)) (r : list F) :
  Forall2 Spec.sum_of Ls r → length r = 8%nat →
  Spec.sum_of (concat Ls) (add8 fadd (of_int 0) r).
Proof.
  intros HLs Hr.
  destruct HLs as [|L0 r0 ? ? H0 HLs]; [discriminate|].
  destruct HLs as [|L1 r1 ? ? H1 HLs]; [discriminate|].
  destruct HLs as [|L2 r2 ? ? H2 HLs]; [discriminate|].
  destruct HLs as [|L3 r3 ? ? H3 HLs]; [discriminate|].
  destruct HLs as [|L4 r4 ? ? H4 HLs]; [discriminate|].
  destruct HLs as [|L5 r5 ? ? H5 HLs]; [discriminate|].
  destruct HLs as [|L6 r6 ? ? H6 HLs]; [discriminate|].
  destruct HLs as [|L7 r7 ? ? H7 HLs]; [discriminate|].
  destruct HLs as [|]; [|discriminate].
  cbn [add8 concat]. rewrite app_nil_r.
  replace (L0 ++ L1 ++ L2 ++ L3 ++ L4 ++ L5 ++ L6 ++ L7)
    with (((L0 ++ L1) ++ (L2 ++ L3)) ++ ((L4 ++ L5) ++ (L6 ++ L7)))
    by (by rewrite <- !app_assoc).
  by repeat apply Spec.sum_of_app.
Qed.

Lemma concat_singletons (l : list F) : concat ((λ x, [x]) <$> l) = l.
Proof. induction l as [|x l IH]; [done|]. cbn [fmap list_fmap concat app]. by f_equal. Qed.

Lemma sum_of_unrolled (a : list F) :
  (8 ≤ length a)%nat → Spec.sum_of a (sum_unrolled fadd (of_int 0) a).
Proof.
  intros Ha. unfold sum_unrolled. set (blocks := (length a / 8)%nat).
  assert (1 ≤ blocks)%nat as Hblocks.
  { subst blocks. apply Nat.div_le_lower_bound; lia. }
  assert (8 * blocks ≤ length a)%nat as Hle.
  { subst blocks. apply Nat.Div0.mul_div_le. }
  destruct (sum_of_add_blocks (blocks - 1) ((λ x, [x]) <$> take 8 a) (take 8 a) (drop 8 a))
    as (Ls' & HLs' & Hlen & Hperm).
  - apply Forall2_fmap_l, Forall_Forall2_diag, Forall_forall. intros x _. constructor.
  - rewrite length_take. lia.
  - rewrite length_drop. lia.
  - apply (Spec.sum_of_perm (concat Ls' ++ drop (8 * blocks) a)).
    + rewrite Hperm, concat_singletons, take_take_drop.
      replace (8 + 8 * (blocks - 1))%nat with (8 * blocks)%nat by lia.
      by rewrite take_drop.
    + apply sum_of_foldl, sum_of_add8; done.
Qed.

Lemma sum_of_pairwise (fuel : nat) (a : list F) :
  Spec.sum_of a (pairwise_sum fadd (of_int 0) fuel a).
Proof.
  revert a. induction fuel as [|fuel IH]; intros a; cbn [pairwise_sum].
  - destruct (Nat.ltb_spec (length a) 8).
    + apply (sum_of_foldl [] a (of_int 0)). constructor.
    + destruct (_ <=? _)%nat; by apply sum_of_unrolled.
  - destruct (Nat.ltb_spec (length a) 8).
    + apply (sum_of_foldl [] a (of_int 0)). constructor.
    + destruct (_ <=? _)%nat; [by apply sum_of_unrolled|].
      rewrite <- (take_drop (length a / 2 - (length a / 2) mod 8) a) at 1.
      by apply Spec.sum_of_app.
Qed.

Lemma sum_of_add_reduce (a : list F) : Spec.sum_of a (add_reduce fadd (of_int 0) a).
Proof. apply (Spec.sum_of_app [] a); [constructor | apply sum_of_pairwise]. Qed.
End Sums.

#[global] Instance float64_sums : SumLaws float.
Proof. split. intros l. exact (sum_of_add_reduce (F := float) l). Qed.

#[global] Instance real_sums : SumLaws R.
Proof. split. intros l. exact (sum_of_add_reduce (F := R) l). Qed.

(** ** The stationarity test *)

Section Batches.
Context {A : Type}.

Lemma slice_from_last (k : Z) (l : list A) :
  (0 < k)%Z → slice_from (- k) l = drop (length l - Z.to_nat k) l.
Proof.
  intros Hk. unfold slice_from.
  destruct (Z.leb_spec 0 (- k)); [lia|]. by rewrite Z.opp_involutive.
Qed.

Lemma rows_batches (m b : nat) (l : list A) :
  rows m b l = (λ i, take b (drop (i * b) l)) <$> seq 0 m.
Proof.
  revert l. induction m as [|m IH]; intros l; [done|].
  cbn [rows seq fmap list_fmap]. rewrite <- fmap_S_seq, <- list_fmap_compose.
  f_equal. rewrite IH. apply list_fmap_ext. intros _ i _. cbn.
  by rewrite drop_drop.
Qed.

Lemma concat_rows (m b : nat) (l : list A) :
  length l = m * b → concat (rows m b l) = l.
Proof.
  revert l. induction m as [|m IH]; intros l Hlen; cbn [rows concat].
  - by destruct l.
  - rewrite IH by (rewrite length_drop; lia). apply take_drop.
Qed.
End Batches.

Section Stationarity.
Context {F : Type} `{Float64 F} `{Library F} `{!SumLaws F}.

Lemma np_mean_mean_of (l : list F) : Spec.mean_of l (np_mean l).
Proof. exists (np_sum l). split; [apply fsum_sum_of | done]. Qed.

Lemma verdict_Ok (c : bool) : (if c then Ok true else Ok false) = Ok c :> result bool.
Proof. by destruct c. Qed.

(** C5.  When [b = floor(sqrt(W))] exceeds 1 and at least [m*b] Delta values
    are recorded ([m = b]), [convergence_check] returns without raising, and
    its answer is a verdict of [Spec.stationary]: the last [m*b] values cut
    into [m] consecutive batches of [b], a mean [mu_n] of them all, a mean
    of each batch, [sigma_n^2 = (m/(b-1)) * sum((batch_mean - mu_n)^2)], the
    half-width [t(1-delta/2, b-1) * sigma_n / sqrt(m*b)], and [True] exactly
    when [mu_n - half < 0 < mu_n + half].  The sums are numpy's: each adds
    up every number of its list once, in the order of the library. *)
Theorem convergence_check_stationary
    (self : SASA.self_ F) (W : Z) (Delta_history : list F) :
  (1 < SASA.batch_size W)%Z →
  (SASA.batch_size W * SASA.batch_size W ≤ Z.of_nat (length Delta_history))%Z →
  ∃ verdict,
    SASA.convergence_check self W Delta_history = Ok verdict
    ∧ Spec.stationary (SASA._delta self) W Delta_history verdict.
Proof.
  intros Hb Hlen. unfold SASA.convergence_check, Spec.stationary.
  fold (SASA.batch_size W). set (b := SASA.batch_size W) in *.
  rewrite slice_from_last by nia. fold (Spec.last_values (Z.to_nat (b * b)) Delta_history).
  set (values := Spec.last_values (Z.to_nat (b * b)) Delta_history).
  assert (length values = Z.to_nat b * Z.to_nat b)%nat as Hvalues.
  { unfold values, Spec.last_values. rewrite length_drop. nia. }
  unfold np_reshape. rewrite decide_True by (repeat split; nia). cbn [bind].
  unfold np_mean2, np_mean_axis1. rewrite concat_rows by done.
  rewrite rows_batches, verdict_Ok.
  eexists. split; [reflexivity|].
  exists (np_mean values),
         (map np_mean ((λ i, take (Z.to_nat b) (drop (i * Z.to_nat b) values))
                         <$> seq 0 (Z.to_nat b))),
         (np_sum (map (λ x, fsq (x - np_mean values)%f64)
                    (map np_mean ((λ i, take (Z.to_nat b) (drop (i * Z.to_nat b) values))
                                    <$> seq 0 (Z.to_nat b))))).
  split; [apply np_mean_mean_of|]. split; [|split].
  - apply Forall2_fmap_r, Forall2_fmap_r, Forall_Forall2_diag, Forall_forall.
    intros i _. apply np_mean_mean_of.
  - apply fsum_sum_of.
  - reflexivity.
Qed.
End Stationarity.

Lemma convergence_check_stationary_witness :
  ∃ verdict,
    SASA.convergence_check Example.sasa 4 [7; 8; -1; -1; 1; 1]%float = Ok verdict
    ∧ Spec.stationary (SASA._delta Example.sasa) 4 [7; 8; -1; -1; 1; 1]%float verdict.
Proof.
  apply (convergence_check_stationary Example.sasa 4 [7; 8; -1; -1; 1; 1]%float).
  - vm_compute. reflexivity.
  - vm_compute. discriminate.
Defined.

(** ** The laws hold in binary64 and on the reals *)

Lemma SFadd_comm (prec emax : Z) (x y : spec_float) :
  SFadd prec emax x y = SFadd prec emax y x.
Proof.
  destruct x as [sx|sx| |sx mx ex], y as [sy|sy| |sy my ey]; try reflexivity;
    try (destruct sx, sy; reflexivity).
  cbn [SFadd]. rewrite (Z.min_comm ex ey). f_equal. apply Z.add_comm.
Qed.

Lemma SFmul_comm (prec emax : Z) (x y : spec_float) :
  SFmul prec emax x y = SFmul prec emax y x.
Proof.
  destruct x as [sx|sx| |sx mx ex], y as [sy|sy| |sy my ey]; try reflexivity;
    cbn [SFmul]; rewrite (xorb_comm sx sy); try reflexivity.
  by rewrite (Pos.mul_comm mx my), (Z.add_comm ex ey).
Qed.

#[global] Instance float64_comm : CommArith float.
Proof.
  split; intros x y; cbn [fadd fmul Binary64.float64].
  - rewrite <- (SF2Prim_Prim2SF (x + y)), <- (SF2Prim_Prim2SF (y + x)).
    rewrite !add_spec. unfold SF64add. by rewrite SFadd_comm.
  - rewrite <- (SF2Prim_Prim2SF (x * y)), <- (SF2Prim_Prim2SF (y * x)).
    rewrite !mul_spec. unfold SF64mul. by rewrite SFmul_comm.
Qed.

#[global] Instance real_comm : CommArith R.
Proof. split; intros x y; cbn; lra. Qed.

(** ** The descent directions *)

Section Directions.
Context {F : Type} `{Float64 F}.

Lemma broadcast_same_shape (op : F → F → F) (a b : list F) :
  length a = length b → broadcast op a b = Ok (zip_with op a b).
Proof. intros Hlen. unfold broadcast. by rewrite decide_True. Qed.

Lemma initial_acc_length (grad : list F) (acc : option (list F)) :
  (∀ a, acc = Some a → length a = length grad) →
  length (Spec.initial_acc grad acc) = length grad.
Proof.
  intros Hshape. destruct acc as [a|]; cbn; [by apply Hshape | by rewrite length_map].
Qed.

Context `{!CommArith F}.

Lemma direction_eq (jitter : F) (grad acc' : list F) :
  length acc' = length grad →
  broadcast fdiv grad (map (λ h, fsqrt (jitter + h)%f64) acc')
  = Ok (Spec.direction jitter grad acc').
Proof.
  intros Hlen. rewrite broadcast_same_shape by by rewrite length_map.
  unfold Spec.direction. rewrite zip_with_fmap_r. f_equal.
  apply zip_with_ext; [|done..]. intros g a'. by rewrite (fadd_comm jitter a').
Qed.

Lemma RMSProp_descent_direction_eq
    (lr beta jitter : F) (self : object F) (grad : list F) (acc : option (list F)) :
  RMSProp.new lr beta jitter = Ok self →
  (∀ a, acc = Some a → length a = length grad) →
  RMSProp.descent_direction self grad acc
  = Ok (Spec.direction jitter grad (Spec.rmsprop_acc beta (Spec.initial_acc grad acc) grad),
        Spec.rmsprop_acc beta (Spec.initial_acc grad acc) grad).
Proof.
  intros Hnew Hshape.
  apply RMSProp_attributes in Hnew as (_ & Hbeta & Hjitter & _).
  pose proof (initial_acc_length grad acc Hshape) as Hlen.
  unfold RMSProp.descent_direction.
  change (match acc with None => map fsq grad | Some h => h end)
    with (Spec.initial_acc grad acc).
  rewrite Hbeta. cbn [bind].
  rewrite broadcast_same_shape by (rewrite !length_map; lia). cbn [bind].
  rewrite Hjitter. cbn [bind].
  assert (zip_with fadd (map (λ h, (h * beta)%f64) (Spec.initial_acc grad acc))
            (map (λ g2, ((of_int 1 - beta) * g2)%f64) (map fsq grad))
          = Spec.rmsprop_acc beta (Spec.initial_acc grad acc) grad) as ->.
  { unfold Spec.rmsprop_acc. rewrite zip_with_fmap_l, !zip_with_fmap_r.
    apply zip_with_ext; [|done..]. intros a g. by rewrite (fmul_comm a beta). }
  rewrite direction_eq; [done|]. unfold Spec.rmsprop_acc. rewrite length_zip_with. lia.
Qed.

Lemma AdaGrad_descent_direction_eq
    (lr jitter : F) (self : object F) (grad : list F) (acc : option (list F)) :
  AdaGrad.new lr jitter = Ok self →
  (∀ a, acc = Some a → length a = length grad) →
  AdaGrad.descent_direction self grad acc
  = Ok (Spec.direction jitter grad (Spec.adagrad_acc (Spec.initial_acc grad acc) grad),
        Spec.adagrad_acc (Spec.initial_acc grad acc) grad).
Proof.
  intros Hnew Hshape.
  apply AdaGrad_attributes in Hnew as (_ & Hjitter & _).
  pose proof (initial_acc_length grad acc Hshape) as Hlen.
  unfold AdaGrad.descent_direction.
  change (match acc with None => map fsq grad | Some h => h end)
    with (Spec.initial_acc grad acc).
  rewrite broadcast_same_shape by (rewrite !length_map; lia). cbn [bind].
  rewrite Hjitter. cbn [bind].
  assert (zip_with fadd (Spec.initial_acc grad acc) (map fsq grad)
          = Spec.adagrad_acc (Spec.initial_acc grad acc) grad) as ->.
  { unfold Spec.adagrad_acc. by rewrite zip_with_fmap_r. }
  rewrite direction_eq; [done|]. unfold Spec.adagrad_acc. rewrite length_zip_with. lia.
Qed.

(** C7.  For the strategies as their constructors build them, every
    gradient and every accumulator of the gradient's shape, or none on the
    first call: [RMSProp.descent_direction] returns the accumulator
    [beta*acc + (1-beta)*grad^2] and [AdaGrad.descent_direction] the
    accumulator [acc + grad^2], where [acc] is [grad^2] on the first call,
    and both return the direction [grad / sqrt(acc' + jitter)], element by
    element.  The source writes the products and the sum under the root the
    other way round; the operations commute. *)
Theorem descent_direction_formulas
    (lr beta jitter lr' jitter' : F) (rmsprop adagrad : object F)
    (grad : list F) (acc : option (list F)) :
  RMSProp.new lr beta jitter = Ok rmsprop →
  AdaGrad.new lr' jitter' = Ok adagrad →
  (∀ a, acc = Some a → length a = length grad) →
  let acc0 := Spec.initial_acc grad acc in
  RMSProp.descent_direction rmsprop grad acc
  = Ok (Spec.direction jitter grad (Spec.rmsprop_acc beta acc0 grad),
        Spec.rmsprop_acc beta acc0 grad)
  ∧ AdaGrad.descent_direction adagrad grad acc
    = Ok (Spec.direction jitter' grad (Spec.adagrad_acc acc0 grad),
          Spec.adagrad_acc acc0 grad).
Proof.
  intros Hr Ha Hshape acc0. subst acc0. split.
  - by apply (RMSProp_descent_direction_eq lr).
  - by apply (AdaGrad_descent_direction_eq lr').
Qed.
End Directions.

Lemma descent_direction_formulas_witness :
  let grad := [3; -4]%float in
  let acc0 := [1; 2]%float in
  RMSProp.descent_direction Example.rmsprop grad (Some acc0)
  = Ok (Spec.direction RMSProp.default_jitter grad
          (Spec.rmsprop_acc RMSProp.default_beta acc0 grad),
        Spec.rmsprop_acc RMSProp.default_beta acc0 grad)
  ∧ AdaGrad.descent_direction Example.adagrad grad (Some acc0)
    = Ok (Spec.direction AdaGrad.default_jitter grad (Spec.adagrad_acc acc0 grad),
          Spec.adagrad_acc acc0 grad).
Proof.
  intros grad acc0.
  refine (descent_direction_formulas 0.5%float RMSProp.default_beta
            RMSProp.default_jitter 1%float AdaGrad.default_jitter
            Example.rmsprop Example.adagrad grad (Some acc0) _ _ _).
  - reflexivity.
  - reflexivity.
  - intros a [= <-]. reflexivity.
Defined.

(** ** Binary64 arithmetic *)

(** What the proofs below need of the operations of binary64, from their
    specification in [SpecFloat]. *)
Section FloatFacts.
#[local] Open Scope Z_scope.

Lemma digits2_pos_bounds (p : positive) :
  2 ^ (Zpos (digits2_pos p) - 1) ≤ Zpos p < 2 ^ Zpos (digits2_pos p).
Proof.
  induction p as [p IH|p IH|]; cbn [digits2_pos]; [| |by cbn].
  all: rewrite Pos2Z.inj_succ; replace (Z.succ (Zpos (digits2_pos p)) - 1)
         with (Z.succ (Zpos (digits2_pos p) - 1)) by lia;
       rewrite !Z.pow_succ_r by lia; lia.
Qed.

Lemma Zdigits2_bounds (m : Z) :
  0 < m → 0 < Zdigits2 m ∧ 2 ^ (Zdigits2 m - 1) ≤ m < 2 ^ Zdigits2 m.
Proof.
  destruct m as [|p|p]; try lia. intros _. cbn [Zdigits2].
  split; [lia | apply digits2_pos_bounds].
Qed.

Lemma Zdigits2_unique (m d : Z) : 2 ^ (d - 1) ≤ m < 2 ^ d → 0 < m → Zdigits2 m = d.
Proof.
  intros Hd Hm. destruct (Zdigits2_bounds m Hm) as (Hpos & Hlo & Hhi).
  assert (0 < d).
  { destruct (Z.le_gt_cases d 0) as [Hle|]; [|done].
    destruct (Z.eq_dec d 0) as [->|]; [cbn in Hd; lia|].
    rewrite (Z.pow_neg_r 2 d) in Hd by lia. lia. }
  destruct (Z.lt_trichotomy (Zdigits2 m) d) as [Hlt|[Heq|Hgt]]; [|done|].
  - assert (2 ^ Zdigits2 m ≤ 2 ^ (d - 1)) by (apply Z.pow_le_mono_r; lia). lia.
  - assert (2 ^ d ≤ 2 ^ (Zdigits2 m - 1)) by (apply Z.pow_le_mono_r; lia). lia.
Qed.

Lemma Zdigits2_le (m m' : Z) : 0 < m → m ≤ m' → Zdigits2 m ≤ Zdigits2 m'.
Proof.
  intros Hm Hle.
  destruct (Zdigits2_bounds m Hm) as (Hpos & Hlo & Hhi).
  destruct (Zdigits2_bounds m' ltac:(lia)) as (Hpos' & Hlo' & Hhi').
  destruct (Z.le_gt_cases (Zdigits2 m) (Zdigits2 m')) as [|Hgt]; [done|].
  assert (2 ^ Zdigits2 m' ≤ 2 ^ (Zdigits2 m - 1)) by (apply Z.pow_le_mono_r; lia). lia.
Qed.

Lemma Zdigits2_mul_pow (m k : Z) : 0 < m → 0 ≤ k → Zdigits2 (m * 2 ^ k) = Zdigits2 m + k.
Proof.
  intros Hm Hk. destruct (Zdigits2_bounds m Hm) as (Hpos & Hlo & Hhi).
  assert (0 < 2 ^ k) by (apply Z.pow_pos_nonneg; lia).
  apply Zdigits2_unique; [|nia].
  replace (Zdigits2 m + k - 1) with ((Zdigits2 m - 1) + k) by lia.
  rewrite !Z.pow_add_r by lia. nia.
Qed.

Lemma Zdigits2_div_pow (m k : Z) :
  0 < m → 0 ≤ k → k < Zdigits2 m →
  0 < m / 2 ^ k ∧ Zdigits2 (m / 2 ^ k) = Zdigits2 m - k.
Proof.
  intros Hm Hk Hlt. destruct (Zdigits2_bounds m Hm) as (Hpos & Hlo & Hhi).
  assert (0 < 2 ^ k) as Hpow by (apply Z.pow_pos_nonneg; lia).
  assert (2 ^ (Zdigits2 m - k - 1) ≤ m / 2 ^ k < 2 ^ (Zdigits2 m - k)) as Hb.
  { split.
    - apply Z.div_le_lower_bound; [done|].
      rewrite <- Z.pow_add_r by lia. by replace (k + (Zdigits2 m - k - 1)) with (Zdigits2 m - 1) by lia.
    - apply Z.div_lt_upper_bound; [done|].
      rewrite <- Z.pow_add_r by lia. by replace (k + (Zdigits2 m - k)) with (Zdigits2 m) by lia. }
  assert (0 < 2 ^ (Zdigits2 m - k - 1)) by (apply Z.pow_pos_nonneg; lia).
  split; [lia|]. apply Zdigits2_unique; [|lia]. by replace (Zdigits2 m - k - 1) with (Zdigits2 m - k - 1) in Hb.
Qed.

Lemma Zdigits2_succ (m : Z) : 0 < m → Zdigits2 m ≤ Zdigits2 (m + 1) ≤ Zdigits2 m + 1.
Proof.
  intros Hm. split; [apply Zdigits2_le; lia|].
  destruct (Zdigits2_bounds m Hm) as (Hpos & Hlo & Hhi).
  destruct (Z.eq_dec (m + 1) (2 ^ Zdigits2 m)) as [Heq|Hne].
  - rewrite (Zdigits2_unique (m + 1) (Zdigits2 m + 1)); [lia| |lia].
    replace (Zdigits2 m + 1 - 1) with (Zdigits2 m) by lia.
    rewrite Z.pow_add_r by lia. lia.
  - rewrite (Zdigits2_unique (m + 1) (Zdigits2 m)); lia.
Qed.

Lemma Pos_iter_xO (m d : positive) : Zpos (Pos.iter xO m d) = Zpos m * 2 ^ Zpos d.
Proof.
  induction d as [|d IH] using Pos.peano_ind.
  - cbn. lia.
  - rewrite Pos.iter_succ, Pos2Z.inj_xO, IH, Pos2Z.inj_succ, Z.pow_succ_r by lia. lia.
Qed.

Lemma shl_align_spec (mx : positive) (ex ex' : Z) :
  (shl_align mx ex ex').2 = Z.min ex ex'
  ∧ Zpos (shl_align mx ex ex').1 = Zpos mx * 2 ^ (ex - Z.min ex ex').
Proof.
  unfold shl_align. destruct (ex' - ex) as [|d|d] eqn:Hd; cbn [fst snd].
  - rewrite Z.min_l by lia. rewrite Z.sub_diag. cbn. lia.
  - rewrite Z.min_l by lia. rewrite Z.sub_diag. cbn. lia.
  - rewrite Z.min_r by lia. rewrite Pos_iter_xO. split; [done|]. do 2 f_equal. lia.
Qed.

Lemma shr_1_m (r : shr_record) : 0 ≤ shr_m r → shr_m (shr_1 r) = shr_m r / 2.
Proof.
  destruct r as [m r s]. cbn [shr_m]. intros Hm.
  destruct m as [|[p|p|]|p]; cbn [shr_1 shr_m]; try done; try lia.
  - apply (Z.div_unique _ 2 _ 1); lia.
  - apply (Z.div_unique _ 2 _ 0); lia.
Qed.

Lemma iter_shr_1_m (p : positive) (r : shr_record) :
  0 ≤ shr_m r → shr_m (SpecFloat.iter_pos shr_1 p r) = shr_m r / 2 ^ Zpos p.
Proof.
  revert r. induction p as [p IH|p IH|]; intros r Hr; cbn [SpecFloat.iter_pos].
  - assert (0 ≤ shr_m (shr_1 r)) by (rewrite shr_1_m by done; by apply Z.div_pos).
    assert (0 < 2 ^ Zpos p) by (apply Z.pow_pos_nonneg; lia).
    assert (0 ≤ shr_m (SpecFloat.iter_pos shr_1 p (shr_1 r))) by (rewrite IH by done; by apply Z.div_pos).
    rewrite !IH, shr_1_m by done. rewrite !Z.div_div by lia.
    f_equal. replace (Zpos p~1) with (1 + Zpos p + Zpos p) by lia.
    rewrite !Z.pow_add_r by lia. lia.
  - assert (0 < 2 ^ Zpos p) by (apply Z.pow_pos_nonneg; lia).
    assert (0 ≤ shr_m (SpecFloat.iter_pos shr_1 p r)) by (rewrite IH by done; by apply Z.div_pos).
    rewrite !IH by done. rewrite !Z.div_div by lia.
    f_equal. replace (Zpos p~0) with (Zpos p + Zpos p) by lia.
    rewrite !Z.pow_add_r by lia. lia.
  - by apply shr_1_m.
Qed.

Lemma shr_record_of_loc_m (m : Z) (l : location) : shr_m (shr_record_of_loc m l) = m.
Proof. by destruct l as [|[]]. Qed.

(** Shifting right by [n] when [n] is positive. *)
Lemma shr_spec (r : shr_record) (e n : Z) :
  0 ≤ shr_m r →
  shr_m (shr r e n).1 = shr_m r / 2 ^ Z.max 0 n ∧ (shr r e n).2 = e + Z.max 0 n.
Proof.
  intros Hr. unfold shr. destruct n as [|p|p]; cbn [fst snd].
  - cbn. rewrite Z.div_1_r. lia.
  - rewrite iter_shr_1_m by done. rewrite Z.max_r by lia. done.
  - rewrite Z.max_l by lia. cbn. rewrite Z.div_1_r. lia.
Qed.

Lemma shr_fexp_spec (m e : Z) (l : location) :
  0 ≤ m →
  let n := Z.max 0 (fexp prec emax (Zdigits2 m + e) - e) in
  shr_m (shr_fexp prec emax m e l).1 = m / 2 ^ n
  ∧ (shr_fexp prec emax m e l).2 = e + n.
Proof.
  intros Hm n. unfold shr_fexp.
  destruct (shr_spec (shr_record_of_loc m l) e (fexp prec emax (Zdigits2 m + e) - e))
    as [H1 H2]; [by rewrite shr_record_of_loc_m|].
  by rewrite shr_record_of_loc_m in H1.
Qed.

Lemma round_nearest_even_bounds (m : Z) (l : location) :
  m ≤ round_nearest_even m l ≤ m + 1.
Proof. destruct l as [|[]]; cbn; try lia. destruct (Z.even m); lia. Qed.

(** What [binary_round_aux] computes on a positive mantissa: a first shift
    to the exponent [fexp (digits m + e)], a rounding that adds at most one
    unit, and a second shift that absorbs a carry. *)
Lemma binary_round_aux_spec (s : bool) (m e : Z) (l : location) :
  0 < m →
  let n1 := Z.max 0 (fexp prec emax (Zdigits2 m + e) - e) in
  ∃ m2 : Z,
    m / 2 ^ n1 ≤ m2 ≤ m / 2 ^ n1 + 1
    ∧ let n2 := Z.max 0 (fexp prec emax (Zdigits2 m2 + (e + n1)) - (e + n1)) in
      binary_round_aux prec emax s m e l
      = match m2 / 2 ^ n2 with
        | Z0 => S754_zero s
        | Zpos p =>
            if (e + n1 + n2 <=? emax - prec)%Z then S754_finite s p (e + n1 + n2)
            else S754_infinity s
        | Zneg _ => S754_nan
        end.
Proof.
  intros Hm n1. unfold binary_round_aux.
  destruct (shr_fexp_spec m e l ltac:(lia)) as [Hm1 He1]. fold n1 in Hm1, He1.
  destruct (shr_fexp prec emax m e l) as [mrs' e'] eqn:Hshr. cbn [fst snd] in Hm1, He1.
  set (m2 := round_nearest_even (shr_m mrs') (loc_of_shr_record mrs')).
  assert (0 < 2 ^ n1) by (apply Z.pow_pos_nonneg; lia).
  assert (0 ≤ m / 2 ^ n1) by (apply Z.div_pos; lia).
  pose proof (round_nearest_even_bounds (shr_m mrs') (loc_of_shr_record mrs')) as Hrne.
  fold m2 in Hrne. rewrite Hm1 in Hrne.
  exists m2. split; [done|].
  destruct (shr_fexp_spec m2 e' loc_Exact ltac:(lia)) as [Hm3 He3].
  subst e'.
  destruct (shr_fexp prec emax m2 (e + n1) loc_Exact) as [mrs'' e''] eqn:Hshr'.
  cbn [fst snd] in Hm3, He3. by rewrite Hm3, He3.
Qed.

Lemma fexp64 (x : Z) : fexp prec emax x = Z.max (x - 53) (-1074).
Proof. reflexivity. Qed.

(** The result of [binary_round_aux] on a positive mantissa of magnitude
    [D = digits m + e] above the least exponent: a finite number, or an
    infinity on overflow, of magnitude [D] or [D + 1]. *)
Lemma binary_round_aux_mag (s : bool) (m e : Z) (l : location) :
  0 < m → -1074 < Zdigits2 m + e →
  ∃ (m' : positive) (e' : Z),
    binary_round_aux prec emax s m e l
    = (if (e' <=? 971)%Z then S754_finite s m' e' else S754_infinity s)
    ∧ Zdigits2 m + e ≤ Zdigits2 (Zpos m') + e' ≤ Zdigits2 m + e + 1
    ∧ e' = Z.max e (fexp prec emax (Zdigits2 (Zpos m') + e')).
Proof.
  intros Hm HD.
  destruct (binary_round_aux_spec s m e l Hm) as (m2 & Hm2 & Hround).
  cbv zeta in Hround. rewrite !fexp64 in *.
  set (D := Zdigits2 m + e) in *.
  set (n1 := Z.max 0 (Z.max (D - 53) (-1074) - e)) in *.
  destruct (Zdigits2_bounds m Hm) as (Hdm & _).
  destruct (Zdigits2_div_pow m n1 Hm) as [Hm1 Hd1]; [lia..|].
  assert (0 < m2) as Hm2pos by lia.
  assert (Zdigits2 (m / 2 ^ n1) ≤ Zdigits2 m2 ≤ Zdigits2 (m / 2 ^ n1) + 1) as Hd2.
  { destruct (Z.eq_dec m2 (m / 2 ^ n1)) as [->|]; [lia|].
    replace m2 with (m / 2 ^ n1 + 1) by lia. by apply Zdigits2_succ. }
  set (n2 := Z.max 0 (Z.max (Zdigits2 m2 + (e + n1) - 53) (-1074) - (e + n1))) in *.
  destruct (Zdigits2_bounds m2 Hm2pos) as (Hdm2 & _).
  destruct (Zdigits2_div_pow m2 n2 Hm2pos) as [Hm3 Hd3]; [lia..|].
  destruct (m2 / 2 ^ n2) as [|m'|] eqn:Hm'; try lia.
  exists m', (e + n1 + n2). split; [exact Hround|].
  rewrite fexp64, Hd3. lia.
Qed.

(** [binary_round] on a positive mantissa: [m1] is the mantissa at the
    canonical exponent [e1] (exactly, or its floor), [m2] the rounded one,
    and the result is canonical. *)
Lemma binary_round_spec (s : bool) (p : positive) (e : Z) :
  -1074 < Zdigits2 (Zpos p) + e →
  let e1 := fexp prec emax (Zdigits2 (Zpos p) + e) in
  ∃ (m1 m2 : Z) (m' : positive),
    (e1 ≤ e → m1 = Zpos p * 2 ^ (e - e1))
    ∧ (e < e1 → m1 = Zpos p / 2 ^ (e1 - e))
    ∧ 0 < m1 ∧ Zdigits2 m1 + e1 = Zdigits2 (Zpos p) + e
    ∧ m1 ≤ m2 ≤ m1 + 1
    ∧ let e3 := fexp prec emax (Zdigits2 m2 + e1) in
      Zpos m' = m2 / 2 ^ (e3 - e1) ∧ e1 ≤ e3
      ∧ Zdigits2 (Zpos m') + e3 = Zdigits2 m2 + e1
      ∧ binary_round prec emax s p e
        = if (e3 <=? 971)%Z then S754_finite s m' e3 else S754_infinity s.
Proof.
  intros HD e1. unfold binary_round.
  change (Zpos (digits2_pos p)) with (Zdigits2 (Zpos p)). fold e1.
  destruct (shl_align_spec p e e1) as [Hez Hmz].
  destruct (shl_align p e e1) as [mz ez]. cbn [fst snd] in Hez, Hmz.
  assert (Zdigits2 (Zpos mz) + ez = Zdigits2 (Zpos p) + e) as Hmag.
  { rewrite Hmz, Zdigits2_mul_pow by lia. lia. }
  destruct (binary_round_aux_spec s (Zpos mz) ez loc_Exact) as (m2 & Hm2 & Hround); [lia|].
  cbv zeta in Hround. rewrite Hmag in *. fold e1 in Hm2, Hround.
  set (n1 := Z.max 0 (e1 - ez)) in *.
  assert (ez + n1 = e1) as He1 by (subst e1 n1; rewrite fexp64 in *; lia).
  rewrite He1 in Hround.
  pose proof (Zdigits2_bounds (Zpos mz) ltac:(lia)) as (Hdmz & _).
  destruct (Zdigits2_div_pow (Zpos mz) n1) as [Hm1 Hd1]; [lia| lia | |].
  { subst e1 n1. rewrite fexp64 in *. lia. }
  assert (0 < m2) as Hm2pos by lia.
  assert (Zdigits2 (Zpos mz / 2 ^ n1) ≤ Zdigits2 m2 ≤ Zdigits2 (Zpos mz / 2 ^ n1) + 1) as Hd2.
  { destruct (Z.eq_dec m2 (Zpos mz / 2 ^ n1)) as [->|]; [lia|].
    replace m2 with (Zpos mz / 2 ^ n1 + 1) by lia. by apply Zdigits2_succ. }
  set (e3 := fexp prec emax (Zdigits2 m2 + e1)) in *.
  assert (e1 ≤ e3) as He3 by (subst e1 e3; rewrite !fexp64 in *; lia).
  rewrite (Z.max_r 0 (e3 - e1)) in Hround by lia.
  pose proof (Zdigits2_bounds m2 Hm2pos) as (Hdm2 & _).
  destruct (Zdigits2_div_pow m2 (e3 - e1) Hm2pos) as [Hm3 Hd3]; [lia| |].
  { subst e3. rewrite fexp64 in *. lia. }
  destruct (m2 / 2 ^ (e3 - e1)) as [|m'|] eqn:Hm'; try lia.
  exists (Zpos mz / 2 ^ n1), m2, m'.
  replace (e1 + (e3 - e1)) with e3 in Hround by lia.
  repeat split; try done; try lia.
  - intros Hle. rewrite Hmz. replace n1 with 0 by lia.
    rewrite Z.div_1_r. do 2 f_equal. lia.
  - intros Hlt. rewrite Hmz. replace (e - Z.min e e1) with 0 by lia.
    rewrite Z.mul_1_r. do 2 f_equal. lia.
Qed.

Lemma binary_round_aux_sign (s : bool) (m e : Z) (l : location) :
  match binary_round_aux prec emax s m e l with
  | S754_zero s' | S754_infinity s' | S754_finite s' _ _ => s' = s
  | S754_nan => True
  end.
Proof.
  unfold binary_round_aux.
  destruct (shr_fexp _ _ m e l) as [mrs' e'].
  destruct (shr_fexp _ _ _ e' _) as [mrs'' e''].
  destruct (shr_m mrs''); try done. by destruct (_ <=? _)%Z.
Qed.

Lemma binary_round_sign (s : bool) (p : positive) (e : Z) :
  match binary_round prec emax s p e with
  | S754_zero s' | S754_infinity s' | S754_finite s' _ _ => s' = s
  | S754_nan => True
  end.
Proof.
  unfold binary_round. destruct (shl_align _ _ _) as [mz ez].
  apply binary_round_aux_sign.
Qed.

Lemma valid_finite (s : bool) (m : positive) (e : Z) :
  valid_binary (S754_finite s m e) = true →
  fexp prec emax (Zdigits2 (Zpos m) + e) = e ∧ e ≤ 971.
Proof.
  unfold valid_binary. cbn [SpecFloat.valid_binary]. unfold bounded, canonical_mantissa.
  intros [Hc Hb]%andb_prop. apply Z.eqb_eq in Hc. apply Z.leb_le in Hb.
  split; [done|]. exact Hb.
Qed.

Lemma SFltb_irrefl (a : spec_float) : SFltb a a = false.
Proof.
  unfold SFltb. destruct a as [s|s| |s m e]; cbn [SFcompare]; try done.
  - by destruct s.
  - rewrite Z.compare_refl, Pos.compare_cont_refl. by destruct s.
Qed.

(** Adding a number that is not negative never gives a smaller number. *)
Lemma SFadd_nonnegative_not_lt (a s : spec_float) :
  valid_binary a = true → valid_binary s = true → Binary64.nonnegative s →
  SFltb (SFadd prec emax a s) a = false.
Proof.
  intros Ha Hs Hsign.
  destruct s as [ss|ss| |ss ms es]; cbn [Binary64.nonnegative] in Hsign; try subst ss.
  - destruct a as [sa|sa| |sa ma ea]; cbn [SFadd]; try apply SFltb_irrefl; try done.
    by destruct sa.
  - destruct a as [sa|sa| |sa ma ea]; cbn [SFadd]; try done; by destruct sa.
  - by destruct a.
  - destruct a as [sa|sa| |sa ma ea]; cbn [SFadd]; try done.
    { by destruct sa. }
    apply valid_finite in Ha as [Hca Hba]. apply valid_finite in Hs as [Hcs Hbs].
    set (ez := Z.min ea es).
    destruct (shl_align_spec ma ea ez) as [_ HA].
    destruct (shl_align_spec ms es ez) as [_ HS].
    rewrite (Z.min_r ea ez) in HA by lia. rewrite (Z.min_r es ez) in HS by lia.
    set (A := Zpos (shl_align ma ea ez).1) in *.
    set (S := Zpos (shl_align ms es ez).1) in *.
    assert (0 < 2 ^ (ea - ez)) as Hpa by (apply Z.pow_pos_nonneg; lia).
    assert (0 < 2 ^ (es - ez)) as Hps by (apply Z.pow_pos_nonneg; lia).
    assert (Zdigits2 A = Zdigits2 (Zpos ma) + (ea - ez)) as HdA
      by (rewrite HA; apply Zdigits2_mul_pow; lia).
    pose proof (Zdigits2_bounds (Zpos ma) ltac:(lia)) as (Hdma & _).
    rewrite fexp64 in Hca, Hcs.
    cbn [cond_Zopp]. destruct sa; cbn [cond_Zopp].
    + (* a is negative *)
      destruct (- A + S) as [|p|p] eqn:HM; cbn [binary_normalize].
      * done.
      * pose proof (binary_round_sign false p ez) as Hsign.
        destruct (binary_round prec emax false p ez) as [s'|s'| |s' m' e']; try subst s'; done.
      * assert (Zpos p < A) as HpA by lia.
        pose proof (Zdigits2_bounds (Zpos ms) ltac:(lia)) as (Hdms & _).
        pose proof (Zdigits2_bounds (Zpos p) ltac:(lia)) as (Hdp & _).
        assert (Zdigits2 (Zpos p) ≤ Zdigits2 A) as Hdle by (apply Zdigits2_le; lia).
        destruct (binary_round_spec true p ez) as (m1 & m2 & m' & H1 & H2 & Hm1 & Hd1 & Hm2 & Hres);
          [lia|].
        cbv zeta in Hres. destruct Hres as (Hm' & He3 & Hd3 & ->).
        rewrite !fexp64 in *.
        set (e1 := Z.max (Zdigits2 (Zpos p) + ez - 53) (-1074)) in *.
        assert (e1 ≤ ea) as He1 by lia.
        assert (0 < 2 ^ (ea - e1)) as Hpe by (apply Z.pow_pos_nonneg; lia).
        assert (m1 < Zpos ma * 2 ^ (ea - e1)) as Hm1lt.
        { destruct (Z.le_gt_cases e1 ez) as [Hle|Hgt].
          - rewrite (H1 Hle). replace (ea - e1) with ((ea - ez) + (ez - e1)) by lia.
            rewrite Z.pow_add_r by lia.
            assert (0 < 2 ^ (ez - e1)) by (apply Z.pow_pos_nonneg; lia). nia.
          - rewrite (H2 Hgt). apply Z.div_lt_upper_bound; [apply Z.pow_pos_nonneg; lia|].
            rewrite Z.mul_comm, <- Z.mul_assoc, <- Z.pow_add_r by lia.
            replace (ea - e1 + (e1 - ez)) with (ea - ez) by lia. lia. }
        assert (m2 ≤ Zpos ma * 2 ^ (ea - e1)) as Hm2le by lia.
        assert (Zdigits2 m2 ≤ Zdigits2 (Zpos ma) + (ea - e1)) as Hdm2.
        { rewrite <- Zdigits2_mul_pow by lia. apply Zdigits2_le; lia. }
        set (e3 := Z.max (Zdigits2 m2 + e1 - 53) (-1074)) in *.
        assert (e3 ≤ ea) as He3a by lia.
        rewrite (proj2 (Z.leb_le e3 971)) by lia.
        unfold SFltb. cbn [SFcompare].
        destruct (Z.compare_spec e3 ea) as [Heq|Hlt|Hgt]; [|done|lia].
        assert (Zpos m' ≤ Zpos ma) as Hle.
        { rewrite Hm', Heq. apply Z.div_le_upper_bound; [done|]. lia. }
        change (Pos.compare_cont Eq m' ma) with (m' ?= ma)%positive.
        destruct (Pos.compare_spec m' ma); try done. lia.
    + (* a is positive *)
      destruct (A + S) as [|p|p] eqn:HM; try lia. cbn [binary_normalize].
      assert (A ≤ Zpos p) as HpA by lia.
      assert (Zdigits2 A ≤ Zdigits2 (Zpos p)) as Hdle by (apply Zdigits2_le; lia).
      destruct (binary_round_spec false p ez) as (m1 & m2 & m' & H1 & H2 & Hm1 & Hd1 & Hm2 & Hres);
        [lia|].
      cbv zeta in Hres. destruct Hres as (Hm' & He3 & Hd3 & ->).
      rewrite !fexp64 in *.
      set (e1 := Z.max (Zdigits2 (Zpos p) + ez - 53) (-1074)) in *.
      set (e3 := Z.max (Zdigits2 m2 + e1 - 53) (-1074)) in *.
      assert (ea ≤ e1) as He1 by lia.
      unfold SFltb. destruct (e3 <=? 971)%Z; cbn [SFcompare]; [|done].
      destruct (Z.compare_spec e3 ea) as [Heq|Hlt|Hgt]; [|lia|done].
      assert (Zpos ma ≤ Zpos m') as Hle.
      { rewrite Hm'. replace (e3 - e1) with 0 by lia. rewrite Z.div_1_r.
        destruct (Z.le_gt_cases e1 ez) as [Hle|Hgt].
        - rewrite (H1 Hle) in Hm2. replace (ez - e1) with 0 in Hm2 by lia.
          replace (ea - ez) with 0 in HA by lia. lia.
        - rewrite (H2 Hgt) in Hm2.
          assert (Zpos ma ≤ Zpos p / 2 ^ (e1 - ez)); [|lia].
          apply Z.div_le_lower_bound; [apply Z.pow_pos_nonneg; lia|].
          replace (e1 - ez) with (ea - ez) by lia. lia. }
      change (Pos.compare_cont Eq m' ma) with (m' ?= ma)%positive.
      destruct (Pos.compare_spec m' ma); try done. lia.
Qed.

Lemma SFsqrt_core_binary_mag (m : positive) (e : Z) :
  let K := (Zdigits2 (Zpos m) + e + 1) / 2 in
  ∃ (q e' : Z) (l : location),
    SFsqrt_core_binary prec emax (Zpos m) e = (q, e', l)
    ∧ 0 < q ∧ Zdigits2 q + e' = K ∧ e' ≤ fexp prec emax K.
Proof.
  intros K. unfold SFsqrt_core_binary.
  rewrite !Z.div2_div. fold K.
  set (d := Zdigits2 (Zpos m)) in *.
  set (e' := Z.min (fexp prec emax K) (e / 2)).
  assert (2 * e' ≤ e) as He'.
  { pose proof (Z.mul_div_le e 2 ltac:(lia)). lia. }
  set (m' := match e - 2 * e' with Zpos _ => Z.shiftl (Zpos m) (e - 2 * e') | Z0 => Zpos m | Zneg _ => 0 end).
  assert (m' = Zpos m * 2 ^ (e - 2 * e')) as Hm'.
  { subst m'. destruct (e - 2 * e') as [|p|p] eqn:Hs; [cbn; lia| |lia].
    by rewrite Z.shiftl_mul_pow2 by lia. }
  pose proof (Z.sqrtrem_sqrt m') as Hq.
  destruct (Z.sqrtrem m') as [q r]. cbn [fst] in Hq. subst q.
  eexists _, _, _. split; [reflexivity|].
  assert (0 < m') as Hm'pos.
  { rewrite Hm'. apply Z.mul_pos_pos; [lia|]. apply Z.pow_pos_nonneg; lia. }
  destruct (Zdigits2_bounds m' Hm'pos) as (Hdpos & Hlo & Hhi).
  assert (Zdigits2 m' = d + (e - 2 * e')) as Hd by (rewrite Hm'; apply Zdigits2_mul_pow; lia).
  set (k := (Zdigits2 m' + 1) / 2).
  assert (2 * k - 1 ≤ Zdigits2 m' ≤ 2 * k) as Hk.
  { subst k. pose proof (Z.div_mod (Zdigits2 m' + 1) 2 ltac:(lia)).
    pose proof (Z.mod_pos_bound (Zdigits2 m' + 1) 2 ltac:(lia)). lia. }
  assert (0 < 2 ^ (k - 1)) as HP by (apply Z.pow_pos_nonneg; lia).
  assert (2 ^ k = 2 * 2 ^ (k - 1)) as Hk2.
  { replace k with (Z.succ (k - 1)) at 1 by lia. rewrite Z.pow_succ_r by lia. done. }
  assert (2 ^ (k - 1) * 2 ^ (k - 1) ≤ 2 ^ (Zdigits2 m' - 1)) as Hlow.
  { rewrite <- Z.pow_add_r by lia. apply Z.pow_le_mono_r; lia. }
  assert (2 ^ Zdigits2 m' ≤ 2 ^ k * 2 ^ k) as Hhigh.
  { rewrite <- Z.pow_add_r by lia. apply Z.pow_le_mono_r; lia. }
  pose proof (Z.sqrt_spec m' ltac:(lia)) as Hsqrt. cbv zeta in Hsqrt.
  set (q := Z.sqrt m') in *.
  assert (0 ≤ q) by apply Z.sqrt_nonneg.
  assert (2 ^ (k - 1) ≤ q < 2 ^ k) as Hq by (split; nia).
  split; [lia|].
  rewrite (Zdigits2_unique q k) by lia.
  split; [|subst e'; lia].
  subst k K. rewrite Hd.
  replace (d + (e - 2 * e') + 1) with (d + e + 1 + (- e') * 2) by lia.
  rewrite Z.div_add by lia. lia.
Qed.

(** The square root of a positive finite number is positive, of about half
    the magnitude, and canonical. *)
Lemma SFsqrt_positive (m : positive) (e : Z) :
  -1074 ≤ Zdigits2 (Zpos m) + e →
  let K := (Zdigits2 (Zpos m) + e + 1) / 2 in
  ∃ (m' : positive) (e' : Z),
    SFsqrt prec emax (S754_finite false m e)
    = (if (e' <=? 971)%Z then S754_finite false m' e' else S754_infinity false)
    ∧ K ≤ Zdigits2 (Zpos m') + e' ≤ K + 1
    ∧ e' = fexp prec emax (Zdigits2 (Zpos m') + e').
Proof.
  intros HD K. subst K. cbn [SFsqrt].
  destruct (SFsqrt_core_binary_mag m e) as (q & e0 & l & -> & Hq & Hmag & He0).
  cbv zeta in Hmag, He0.
  set (K := (Zdigits2 (Zpos m) + e + 1) / 2) in *.
  assert (-1073 ≤ K) by (subst K; apply Z.div_le_lower_bound; lia).
  destruct (binary_round_aux_mag false q e0 l Hq) as (m' & e' & -> & Hmag' & He'); [lia|].
  exists m', e'. split; [done|]. split; [lia|].
  rewrite !fexp64 in *. lia.
Qed.

Lemma binary_normalize_valid (z : Z) :
  valid_binary (binary_normalize prec emax z 0 false) = true.
Proof.
  destruct z as [|p|p]; cbn [binary_normalize]; [done| |].
  all: pose proof (Zdigits2_bounds (Zpos p) ltac:(lia)) as (Hd & _).
  - destruct (binary_round_spec false p 0) as (m1 & m2 & m' & _ & _ & _ & _ & _ & Hres); [lia|].
    cbv zeta in Hres. destruct Hres as (_ & _ & Hd3 & ->).
    destruct (Z.leb_spec (fexp prec emax (Zdigits2 m2 + fexp prec emax (Zdigits2 (Zpos p) + 0))) 971);
      [|done].
    unfold valid_binary. cbn [SpecFloat.valid_binary]. unfold bounded, canonical_mantissa.
    apply andb_true_intro. split; [apply Z.eqb_eq | apply Z.leb_le; exact H].
    change (Zpos (digits2_pos m')) with (Zdigits2 (Zpos m')). by rewrite Hd3.
  - destruct (binary_round_spec true p 0) as (m1 & m2 & m' & _ & _ & _ & _ & _ & Hres); [lia|].
    cbv zeta in Hres. destruct Hres as (_ & _ & Hd3 & ->).
    destruct (Z.leb_spec (fexp prec emax (Zdigits2 m2 + fexp prec emax (Zdigits2 (Zpos p) + 0))) 971);
      [|done].
    unfold valid_binary. cbn [SpecFloat.valid_binary]. unfold bounded, canonical_mantissa.
    apply andb_true_intro. split; [apply Z.eqb_eq | apply Z.leb_le; exact H].
    change (Zpos (digits2_pos m')) with (Zdigits2 (Zpos m')). by rewrite Hd3.
Qed.

Lemma Prim2SF_of_Z (z : Z) :
  Prim2SF (Binary64.of_Z z) = binary_normalize prec emax z 0 false.
Proof. apply Prim2SF_SF2Prim, binary_normalize_valid. Qed.

Lemma SFmul_square_nonnegative (x : spec_float) : Binary64.nonnegative (SFmul prec emax x x).
Proof.
  destruct x as [s|s| |s m e]; cbn [SFmul Binary64.nonnegative]; try done;
    try by destruct s.
  pose proof (binary_round_aux_sign (xorb s s) (Zpos (m * m)) (e + e) loc_Exact) as Hsign.
  destruct (binary_round_aux _ _ _ _ _ _) as [s'|s'| |s' m' e']; cbn [Binary64.nonnegative];
    try done; subst s'; by destruct s.
Qed.

(** In binary64, adding a square never gives a smaller number. *)
Lemma float_add_square_not_lt (a g : float) : ((a + g * g) <? a)%float = false.
Proof.
  rewrite ltb_spec, add_spec, mul_spec.
  apply SFadd_nonnegative_not_lt; try apply Prim2SF_valid.
  - rewrite <- mul_spec. apply Prim2SF_valid.
  - apply SFmul_square_nonnegative.
Qed.

Lemma positive_float (x : float) :
  (Binary64.of_Z 0 <? x)%float = true →
  (∃ m e, Prim2SF x = S754_finite false m e) ∨ Prim2SF x = S754_infinity false.
Proof.
  rewrite ltb_spec, Prim2SF_of_Z. cbn [binary_normalize]. unfold SFltb.
  destruct (Prim2SF x) as [s|s| |s m e]; cbn [SFcompare]; try done.
  - destruct s; [done|]. by right.
  - destruct s; [done|]. left. by eexists _, _.
Qed.

(** In binary64, the quotient of zero by the root of a positive number is
    zero. *)
Lemma float_is_zero (x : float) :
  Binary64.is_zero x = true → ∃ s, Prim2SF x = S754_zero s.
Proof.
  unfold Binary64.is_zero. rewrite FloatAxioms.eqb_spec, Prim2SF_of_Z.
  cbn [binary_normalize]. unfold SFeqb.
  destruct (Prim2SF x) as [s|s| |s m e]; cbn [SFcompare]; try done; [by eexists|..];
    by destruct s.
Qed.

(** The square of a zero of either sign is [0.0]. *)
Lemma float_square_of_zero (g : float) :
  Binary64.is_zero g = true → (g * g)%float = Binary64.of_Z 0.
Proof.
  intros (s & Hg)%float_is_zero. apply Prim2SF_inj.
  rewrite mul_spec, Hg, Prim2SF_of_Z. cbn. by destruct s.
Qed.

(** A zero over the root of a positive number is that zero. *)
Lemma float_zero_quotient (g jitter : float) :
  Binary64.is_zero g = true →
  (Binary64.of_Z 0 <? jitter)%float = true →
  (g / sqrt (Binary64.of_Z 0 + jitter))%float = g.
Proof.
  intros (s & Hg)%float_is_zero Hjitter. pose proof (Prim2SF_valid jitter) as Hvalid.
  assert (Binary64.of_Z 0 + jitter = jitter)%float as ->.
  { apply Prim2SF_inj. rewrite add_spec, Prim2SF_of_Z. cbn [binary_normalize].
    destruct (positive_float jitter Hjitter) as [(m & e & ->)| ->]; done. }
  apply Prim2SF_inj. rewrite div_spec, sqrt_spec, Hg.
  destruct (positive_float jitter Hjitter) as [(m & e & Hj)| ->]; [|by destruct s].
  rewrite Hj in *. apply valid_finite in Hvalid as [Hc _]. rewrite fexp64 in Hc.
  pose proof (Zdigits2_bounds (Zpos m) ltac:(lia)) as (Hd & _).
  destruct (SFsqrt_positive m e) as (m' & e' & Hsqrt & _); [lia|].
  unfold SF64sqrt. rewrite Hsqrt. by destruct (e' <=? 971), s.
Qed.

Lemma float_is_nan (x : float) : is_nan x = false → Prim2SF x ≠ S754_nan.
Proof.
  unfold is_nan. rewrite FloatAxioms.eqb_spec. intros Hx Hnan. rewrite Hnan in Hx. done.
Qed.

(** In binary64, RMSProp's accumulator stays zero on a zero gradient as
    soon as [1 - beta] is finite. *)
Lemma float_rmsprop_acc_zero (beta : float) :
  is_nan (Binary64.of_Z 1 - beta)%float = false →
  Binary64.is_inf (Binary64.of_Z 1 - beta)%float = false →
  (beta * Binary64.of_Z 0
   + (Binary64.of_Z 1 - beta) * (Binary64.of_Z 0 * Binary64.of_Z 0))%float
  = Binary64.of_Z 0.
Proof.
  intros Hnan%float_is_nan Hinf. unfold Binary64.is_inf in Hinf.
  apply Prim2SF_inj.
  rewrite add_spec, !mul_spec, Prim2SF_of_Z. cbn [binary_normalize].
  rewrite sub_spec, Prim2SF_of_Z in *.
  change (binary_normalize prec emax 1 0 false)
    with (S754_finite false 4503599627370496 (-52)) in *.
  unfold SF64add, SF64mul, SF64sub in *.
  destruct (Prim2SF beta) as [sb|sb| |sb mb eb]; cbn [SFsub] in *; try done.
  - by destruct sb.
  - cbn [SFmul]. set (ez := Z.min (-52) eb) in *.
    destruct sb; cbn [cond_Zopp] in *.
    + match goal with |- context [binary_normalize _ _ ?M _ _] => destruct M as [|p|p] eqn:HM end;
        try lia; cbn [binary_normalize] in *.
      pose proof (binary_round_sign false p ez) as Hsign.
      destruct (binary_round prec emax false p ez) as [s'|s'| |s' m' e']; try subst s'; done.
    + match goal with |- context [binary_normalize _ _ ?M _ _] => destruct M as [|p|p] eqn:HM end;
        cbn [binary_normalize] in *; [done| |].
      * destruct (binary_round prec emax false p ez) as [s'|s'| |s' m' e']; try done;
          by destruct s'.
      * destruct (binary_round prec emax true p ez) as [s'|s'| |s' m' e']; try done;
          by destruct s'.
Qed.

Lemma float_rmsprop_acc_of_zero (beta g : float) :
  is_nan (Binary64.of_Z 1 - beta)%float = false →
  Binary64.is_inf (Binary64.of_Z 1 - beta)%float = false →
  Binary64.is_zero g = true →
  (beta * Binary64.of_Z 0 + (Binary64.of_Z 1 - beta) * (g * g))%float = Binary64.of_Z 0.
Proof.
  intros Hnan Hinf Hg. pose proof (float_rmsprop_acc_zero beta Hnan Hinf) as Hzero.
  rewrite (float_square_of_zero (Binary64.of_Z 0)) in Hzero by by vm_compute.
  by rewrite (float_square_of_zero g Hg).
Qed.

Lemma float_adagrad_acc_of_zero (g : float) :
  Binary64.is_zero g = true → (Binary64.of_Z 0 + g * g)%float = Binary64.of_Z 0.
Proof. intros Hg. rewrite (float_square_of_zero g Hg). by vm_compute. Qed.

(** In binary64, the integer conversion of an int64 [W >= 4] has magnitude
    between 3 and 64. *)
Lemma Prim2SF_of_Z_mag (W : Z) :
  4 ≤ W ≤ Binary64.int64_max →
  ∃ (m : positive) (e : Z),
    Prim2SF (Binary64.of_Z W) = S754_finite false m e
    ∧ 3 ≤ Zdigits2 (Zpos m) + e ≤ 64.
Proof.
  intros [HW4 HW]. change Binary64.int64_max with 9223372036854775807 in HW.
  rewrite Prim2SF_of_Z.
  destruct W as [|w|w]; try lia. cbn [binary_normalize].
  assert (3 ≤ Zdigits2 (Zpos w) ≤ 63) as Hd.
  { split.
    - change 3 with (Zdigits2 4). apply Zdigits2_le; lia.
    - change 63 with (Zdigits2 9223372036854775807). apply Zdigits2_le; lia. }
  destruct (binary_round_spec false w 0) as (m1 & m2 & m' & _ & _ & Hm1 & Hd1 & Hm2 & Hres);
    [lia|].
  cbv zeta in Hres. destruct Hres as (_ & _ & Hd3 & ->).
  assert (Zdigits2 m1 ≤ Zdigits2 m2 ≤ Zdigits2 m1 + 1) as Hd2.
  { destruct (Z.eq_dec m2 m1) as [->|]; [lia|].
    replace m2 with (m1 + 1) by lia. by apply Zdigits2_succ. }
  rewrite !fexp64 in *.
  rewrite (proj2 (Z.leb_le _ 971)) by lia.
  eexists _, _. split; [reflexivity|]. lia.
Qed.

(** In binary64, [floor(sqrt(W))] is at least 2 for every int64 [W >= 4]. *)
Lemma float_floor_sqrt_ge_2 (W : Z) :
  4 ≤ W ≤ Binary64.int64_max →
  2 ≤ Binary64.astype_int (Binary64.round_to_Z Lt (sqrt (Binary64.of_Z W))).
Proof.
  intros HW. destruct (Prim2SF_of_Z_mag W HW) as (m & e & Hx & Hmag).
  unfold Binary64.round_to_Z.
  rewrite sqrt_spec, Hx. unfold SF64sqrt.
  destruct (SFsqrt_positive m e) as (m' & e' & -> & Hmag' & He'); [lia|].
  set (K := (Zdigits2 (Zpos m) + e + 1) / 2) in *.
  assert (2 ≤ K ≤ 32) as HK.
  { subst K. split; [apply Z.div_le_lower_bound; lia|].
    apply Z.lt_succ_r, Z.div_lt_upper_bound; lia. }
  rewrite fexp64 in He'.
  rewrite (proj2 (Z.leb_le e' 971)) by lia. cbv zeta.
  rewrite (proj2 (Z.leb_gt 0 e')) by lia.
  destruct (Zdigits2_div_pow (Zpos m') (- e')) as [Hq Hdq]; [lia..|].
  set (q := Zpos m' / 2 ^ (- e')) in *.
  destruct (Zdigits2_bounds q Hq) as (_ & Hlo & Hhi).
  assert (2 ^ 1 ≤ 2 ^ (Zdigits2 q - 1)) by (apply Z.pow_le_mono_r; lia).
  assert (2 ^ Zdigits2 q ≤ 2 ^ 33) by (apply Z.pow_le_mono_r; lia).
  change (2 ^ 1) with 2 in *. change (2 ^ 33) with 8589934592 in *.
  unfold Binary64.astype_int.
  change Binary64.int64_min with (-9223372036854775808).
  change Binary64.int64_max with 9223372036854775807.
  rewrite (proj2 (Z.leb_le (-9223372036854775808) q)) by lia.
  rewrite (proj2 (Z.leb_le q 9223372036854775807)) by lia. cbn [andb]. lia.
Qed.

(** In binary64, [theta * 0] is a zero or a NaN, whose ceiling as an int64
    is 0 or the least int64. *)
Lemma float_ceil_anchor (theta : float) :
  Binary64.astype_int (Binary64.round_to_Z Gt (theta * Binary64.of_Z 0)%float) ≤ 0.
Proof.
  unfold Binary64.round_to_Z. rewrite mul_spec, Prim2SF_of_Z. cbn [binary_normalize].
  unfold SF64mul. destruct (Prim2SF theta) as [s|s| |s m e]; cbn [SFmul]; by vm_compute.
Qed.

(** In binary64, the square root of an integer [W <= 0] is a zero or a
    NaN. *)
Lemma float_floor_sqrt_nonpositive (W : Z) :
  W ≤ 0 → Binary64.astype_int (Binary64.round_to_Z Lt (sqrt (Binary64.of_Z W))) ≤ 0.
Proof.
  intros HW. unfold Binary64.round_to_Z. rewrite sqrt_spec, Prim2SF_of_Z. unfold SF64sqrt.
  destruct W as [|p|p]; [by vm_compute | lia |]. cbn [binary_normalize].
  pose proof (binary_round_sign true p 0) as Hsign.
  destruct (binary_round prec emax true p 0) as [s|s| |s m e];
    try subst s; cbn [SFsqrt]; by vm_compute.
Qed.
End FloatFacts.

(** ** Zero gradients and the growth of the accumulators *)

Section Dispatch.
Context {F : Type} `{Float64 F}.

Lemma descent_direction_RMSProp (self : object F) :
  ob_type self = type_RMSProp →
  descent_direction self = RMSProp.descent_direction self.
Proof. intros Htype. unfold descent_direction. by rewrite Htype. Qed.

Lemma descent_direction_AdaGrad (self : object F) :
  ob_type self = type_AdaGrad →
  descent_direction self = AdaGrad.descent_direction self.
Proof. intros Htype. unfold descent_direction. by rewrite Htype. Qed.

Lemma nondecreasing_cons (a a' : list F) (accs : list (list F)) :
  elementwise_le a a' → nondecreasing (a' :: accs) → nondecreasing (a :: a' :: accs).
Proof.
  intros Hle Hrest [|i] b b' Hb Hb'.
  - cbn in Hb, Hb'. by injection Hb as <-; injection Hb' as <-.
  - by apply (Hrest i).
Qed.

Lemma nondecreasing_singleton (a : list F) : nondecreasing [a].
Proof. intros [|i] b b' Hb Hb'; cbn in Hb'; discriminate. Qed.

(** Repeating a call that answers a gradient with the gradient itself and
    the zero accumulator. *)
Lemma zero_steps (self : object F) (d : nat) (P : list F → Prop)
    (zeros : list (list F)) (acc : option (list F)) :
  (∀ g acc, P g → acc = None ∨ acc = Some (replicate d (of_int 0)) →
     descent_direction self g acc = Ok (g, replicate d (of_int 0))) →
  Forall P zeros →
  acc = None ∨ acc = Some (replicate d (of_int 0)) →
  descent_directions self zeros acc
  = Ok ((λ g, (g, replicate d (of_int 0))) <$> zeros).
Proof.
  intros Hstep Hzeros. revert acc.
  induction Hzeros as [|g zeros Hg Hzeros IH]; intros acc Hacc; [done|].
  cbn [descent_directions]. rewrite Hstep by done. cbn [bind].
  rewrite IH by by right. done.
Qed.
End Dispatch.

(** The steps of the two strategies in binary64. *)
Section ZeroGradients.

Lemma squares_of_zeros (g : list float) :
  Binary64.zero_vector g →
  map (λ x, x * x)%f64 g = replicate (length g) (of_int 0).
Proof.
  induction 1 as [|x g Hx Hg IH]; [done|]. cbn [map length replicate].
  rewrite IH. f_equal. exact (float_square_of_zero x Hx).
Qed.

Lemma initial_acc_of_zeros (g : list float) (acc : option (list float)) :
  Binary64.zero_vector g →
  acc = None ∨ acc = Some (replicate (length g) (of_int 0)) →
  Spec.initial_acc g acc = replicate (length g) (of_int 0).
Proof. intros Hg [->| ->]; cbn [Spec.initial_acc]; [by apply squares_of_zeros | done]. Qed.

Lemma rmsprop_acc_of_zeros (beta : float) (g : list float) :
  fis_nan (of_int 1 - beta)%f64 = false →
  fis_inf (of_int 1 - beta)%f64 = false →
  Binary64.zero_vector g →
  Spec.rmsprop_acc beta (replicate (length g) (of_int 0)) g
  = replicate (length g) (of_int 0).
Proof.
  intros Hnan Hinf. unfold Spec.rmsprop_acc.
  induction 1 as [|x g Hx Hg IH]; [done|]. cbn [length replicate zip_with].
  rewrite IH. f_equal. exact (float_rmsprop_acc_of_zero beta x Hnan Hinf Hx).
Qed.

Lemma adagrad_acc_of_zeros (g : list float) :
  Binary64.zero_vector g →
  Spec.adagrad_acc (replicate (length g) (of_int 0)) g = replicate (length g) (of_int 0).
Proof.
  unfold Spec.adagrad_acc.
  induction 1 as [|x g Hx Hg IH]; [done|]. cbn [length replicate zip_with].
  rewrite IH. f_equal. exact (float_adagrad_acc_of_zero x Hx).
Qed.

Lemma direction_of_zeros (jitter : float) (g : list float) :
  (of_int 0 <? jitter)%f64 = true →
  Binary64.zero_vector g →
  Spec.direction jitter g (replicate (length g) (of_int 0)) = g.
Proof.
  intros Hjitter. unfold Spec.direction.
  induction 1 as [|x g Hx Hg IH]; [done|]. cbn [length replicate zip_with].
  rewrite IH. f_equal. exact (float_zero_quotient x jitter Hx Hjitter).
Qed.

Lemma adagrad_acc_le (a g : float) : ((a + g * g)%f64 <? a)%f64 = false.
Proof. exact (float_add_square_not_lt a g). Qed.

Lemma RMSProp_zero_step
    (lr beta jitter : float) (self : object float) (d : nat) (g : list float)
    (acc : option (list float)) :
  RMSProp.new lr beta jitter = Ok self →
  fis_nan (of_int 1 - beta)%f64 = false →
  fis_inf (of_int 1 - beta)%f64 = false →
  (of_int 0 <? jitter)%f64 = true →
  length g = d ∧ Binary64.zero_vector g →
  acc = None ∨ acc = Some (replicate d (of_int 0)) →
  descent_direction self g acc = Ok (g, replicate d (of_int 0)).
Proof.
  intros Hnew Hnan Hinf Hjitter [<- Hg] Hacc.
  rewrite descent_direction_RMSProp by by apply RMSProp_attributes in Hnew as (? & _).
  rewrite (RMSProp_descent_direction_eq lr beta jitter) by
    (try done; destruct Hacc as [->| ->]; intros a [= <-]; by rewrite length_replicate).
  rewrite initial_acc_of_zeros, rmsprop_acc_of_zeros by done.
  by rewrite direction_of_zeros.
Qed.

Lemma AdaGrad_zero_step
    (lr jitter : float) (self : object float) (d : nat) (g : list float)
    (acc : option (list float)) :
  AdaGrad.new lr jitter = Ok self →
  (of_int 0 <? jitter)%f64 = true →
  length g = d ∧ Binary64.zero_vector g →
  acc = None ∨ acc = Some (replicate d (of_int 0)) →
  descent_direction self g acc = Ok (g, replicate d (of_int 0)).
Proof.
  intros Hnew Hjitter [<- Hg] Hacc.
  rewrite descent_direction_AdaGrad by by apply AdaGrad_attributes in Hnew as (? & _).
  rewrite (AdaGrad_descent_direction_eq lr jitter) by
    (try done; destruct Hacc as [->| ->]; intros a [= <-]; by rewrite length_replicate).
  rewrite initial_acc_of_zeros, adagrad_acc_of_zeros by done.
  by rewrite direction_of_zeros.
Qed.

Lemma adagrad_acc_elementwise_le (acc grad : list float) :
  length acc = length grad → elementwise_le acc (Spec.adagrad_acc acc grad).
Proof.
  revert grad. induction acc as [|a acc IH]; intros [|g grad] Hlen;
    try discriminate; [constructor|].
  constructor; [apply adagrad_acc_le | apply IH; by injection Hlen].
Qed.

Lemma AdaGrad_steps_nondecreasing
    (lr jitter : float) (self : object float) (d : nat) (grads : list (list float))
    (acc : list float) :
  AdaGrad.new lr jitter = Ok self →
  Forall (λ g, length g = d) grads →
  length acc = d →
  ∃ outs, descent_directions self grads (Some acc) = Ok outs
          ∧ length outs = length grads
          ∧ nondecreasing (acc :: outs.*2).
Proof.
  intros Hnew Hgrads. revert acc.
  induction Hgrads as [|grad grads Hgrad Hgrads IH]; intros acc Hacc.
  - exists []. repeat split. apply nondecreasing_singleton.
  - cbn [descent_directions].
    rewrite descent_direction_AdaGrad by by apply AdaGrad_attributes in Hnew as (? & _).
    rewrite (AdaGrad_descent_direction_eq lr jitter) by
      (try done; intros a [= <-]; congruence).
    cbn [bind Spec.initial_acc].
    destruct (IH (Spec.adagrad_acc acc grad)) as (outs & -> & Hlen & Hchain).
    { unfold Spec.adagrad_acc. rewrite length_zip_with. lia. }
    eexists. split; [reflexivity|]. split; [cbn; by rewrite Hlen|].
    cbn [fmap list_fmap snd]. apply nondecreasing_cons; [|done].
    apply adagrad_acc_elementwise_le. congruence.
Qed.

(** C8, amended.  In binary64, with a positive jitter and, for RMSProp, a
    [beta] for which [1 - beta] is finite (neither NaN nor infinite): when
    every gradient is a zero vector (of elements [0.0] or [-0.0]), every
    call of either strategy returns as direction that zero vector itself,
    and as accumulator [np.zeros(d)]; and for AdaGrad, over any sequence of
    gradients of one shape, every call succeeds and no element of the
    accumulator it returns is below that of the call before. *)
Theorem zero_gradient_directions
    (lr beta jitter lr' jitter' : float) (rmsprop adagrad : object float)
    (d : nat) (zeros grads : list (list float)) :
  RMSProp.new lr beta jitter = Ok rmsprop →
  AdaGrad.new lr' jitter' = Ok adagrad →
  fis_nan (of_int 1 - beta)%f64 = false →
  fis_inf (of_int 1 - beta)%f64 = false →
  (of_int 0 <? jitter)%f64 = true →
  (of_int 0 <? jitter')%f64 = true →
  Forall (λ g, length g = d ∧ Binary64.zero_vector g) zeros →
  Forall (λ g, length g = d) grads →
  descent_directions rmsprop zeros None
  = Ok ((λ g, (g, replicate d (of_int 0))) <$> zeros)
  ∧ descent_directions adagrad zeros None
    = Ok ((λ g, (g, replicate d (of_int 0))) <$> zeros)
  ∧ ∃ outs, descent_directions adagrad grads None = Ok outs
            ∧ length outs = length grads
            ∧ nondecreasing outs.*2.
Proof.
  intros Hr Ha Hnan Hinf Hjitter Hjitter' Hzeros Hgrads. split; [|split].
  - apply (zero_steps _ _ _ _ _ (λ g acc, RMSProp_zero_step lr beta jitter rmsprop d g acc
                                            Hr Hnan Hinf Hjitter) Hzeros). by left.
  - apply (zero_steps _ _ _ _ _ (λ g acc, AdaGrad_zero_step lr' jitter' adagrad d g acc
                                            Ha Hjitter') Hzeros). by left.
  - destruct Hgrads as [|grad grads Hgrad Hgrads].
    + exists []. repeat split. intros i a a' Hi; destruct i; discriminate.
    + cbn [descent_directions].
      rewrite descent_direction_AdaGrad by by apply AdaGrad_attributes in Ha as (? & _).
      rewrite (AdaGrad_descent_direction_eq lr' jitter') by done.
      cbn [bind].
      destruct (AdaGrad_steps_nondecreasing lr' jitter' adagrad d grads
                  (Spec.adagrad_acc (Spec.initial_acc grad None) grad))
        as (outs & -> & Hlen & Hchain); [done..| |].
      { unfold Spec.adagrad_acc, Spec.initial_acc.
        rewrite length_zip_with, length_map. lia. }
      eexists. split; [reflexivity|]. split; [cbn; by rewrite Hlen|done].
Qed.
End ZeroGradients.

Lemma zero_gradient_directions_witness :
  descent_directions Example.rmsprop [[0; -0]; [0; 0]; [-0; -0]]%float None
  = Ok [([0; -0], [0; 0]); ([0; 0], [0; 0]); ([-0; -0], [0; 0])]%float
  ∧ descent_directions Example.adagrad [[0; -0]; [0; 0]; [-0; -0]]%float None
    = Ok [([0; -0], [0; 0]); ([0; 0], [0; 0]); ([-0; -0], [0; 0])]%float
  ∧ ∃ outs, descent_directions Example.adagrad [[1; 2]; [3; 4]]%float None = Ok outs
            ∧ length outs = 2%nat
            ∧ nondecreasing outs.*2.
Proof.
  refine (zero_gradient_directions 0.5%float RMSProp.default_beta RMSProp.default_jitter
            1%float AdaGrad.default_jitter Example.rmsprop Example.adagrad
            2 [[0; -0]; [0; 0]; [-0; -0]]%float [[1; 2]; [3; 4]]%float _ _ _ _ _ _ _ _).
  - reflexivity.
  - reflexivity.
  - vm_compute. reflexivity.
  - vm_compute. reflexivity.
  - vm_compute. reflexivity.
  - vm_compute. reflexivity.
  - repeat (constructor; [split; [reflexivity|]; repeat constructor; by vm_compute|]).
    constructor.
  - by repeat constructor.
Defined.

(** C8 as stated fails in three ways.  [RMSProp] built with [jitter = 0]
    answers the zero gradient with the direction [0/sqrt(0)], which is NaN
    in binary64 and not the zero vector.  [RMSProp] built with an infinite
    [beta] turns the zero accumulator into [0*inf + (1 - inf)*0], which is
    NaN, and the direction with it.  And [AdaGrad] given a gradient of
    another shape than the one before raises [ValueError] and returns no
    accumulator. *)
Lemma zero_gradient_not_zero :
  (descent_directions Example.rmsprop_no_jitter (replicate 1 [0]%float) None
   = Ok [([nan]%float, [0]%float)]
   ∧ [nan]%float ≠ [0]%float
   ∧ PrimFloat.eqb nan 0 = false)
  ∧ (descent_directions Example.rmsprop_infinite_beta (replicate 1 [0]%float) None
     = Ok [([nan]%float, [nan]%float)]
     ∧ fis_inf (of_int 1 - infinity)%f64 = true)
  ∧ descent_directions Example.adagrad [[1; 2]; [1; 2; 3]]%float None
    = Raise (ValueError "operands could not be broadcast together").
Proof.
  split; [split; [vm_compute; reflexivity|]; split; [|reflexivity] | split].
  - intros Heq.
    apply (f_equal (λ l, match l with x :: _ => PrimFloat.is_nan x | [] => true end)) in Heq.
    vm_compute in Heq. discriminate.
  - split; vm_compute; reflexivity.
  - vm_compute. reflexivity.
Qed.

(** ** Degenerate windows *)

Section Windows.
Context `{Library float}.

Lemma astype_int_le (z : Z) : (Binary64.astype_int z ≤ Binary64.int64_max)%Z.
Proof.
  unfold Binary64.astype_int.
  destruct (Z.leb_spec Binary64.int64_min z), (Z.leb_spec z Binary64.int64_max);
    cbn [andb]; try done; by vm_compute.
Qed.

Lemma window_le_int64 (self : SASA.self_ float) (t t0 : Z) :
  (SASA._W0 self ≤ Binary64.int64_max)%Z →
  (SASA.window self t t0 ≤ Binary64.int64_max)%Z.
Proof.
  intros HW0. unfold SASA.window.
  pose proof (astype_int_le
                (Binary64.round_to_Z Gt (SASA._theta self * of_int (t - t0))%f64)) as Hceil.
  change (ceil_int (SASA._theta self * of_int (t - t0))%f64)
    with (Binary64.astype_int
            (Binary64.round_to_Z Gt (SASA._theta self * of_int (t - t0))%f64)).
  lia.
Qed.

(** The iteration calls the method once at most: when the test is due, on
    the window of the iteration. *)
Lemma body_with_due
    (self : SASA.self_ float) (objective : list float → float * list float)
    (t : Z) (s : SASA.locals float) (check check' : Z → list float → result bool) :
  (SASA.check_due self (SASA.window self t (SASA.t0 s)) t = Ok true →
   ∀ D, check (SASA.window self t (SASA.t0 s)) D
        = check' (SASA.window self t (SASA.t0 s)) D) →
  SASA.body_with check self objective t s = SASA.body_with check' self objective t s.
Proof.
  intros Hagree. unfold SASA.body_with.
  destruct (objective _) as [object_val object_grad].
  destruct (descent_direction _ _ _) as [[descent_dir history]|e]; cbn [bind]; [|done].
  destruct (isub _ _) as [updated|e]; cbn [bind]; [|done].
  destruct (np_dot _ _) as [dot|e]; cbn [bind]; [|done].
  destruct (SASA.check_due self _ t) as [[|]|e]; cbn [bind]; try done.
  by rewrite (Hagree eq_refl).
Qed.

Lemma due_batch_size_ge_2 (self : SASA.self_ float) (t t0 : Z) :
  (4 ≤ SASA._W0 self ≤ Binary64.int64_max)%Z →
  SASA.check_due self (SASA.window self t t0) t = Ok true →
  (2 ≤ SASA.batch_size (F := float) (SASA.window self t t0))%Z.
Proof.
  intros [HW0 Hint] Hdue. apply check_due_true in Hdue as (HW & _).
  pose proof (window_le_int64 self t t0 Hint) as Hle.
  apply (float_floor_sqrt_ge_2 (SASA.window self t t0)). lia.
Qed.

(** C10, amended.  An iteration of the loop of [convergence_test] calls the
    stationarity test only when [(W >= W0) and (t % t_check == 0)] holds
    for its window [W], and then on [W] alone: whatever [check] stands for
    the method, the iteration depends on nothing but its answer there.  In
    binary64, when [W0] is an int64 and at least 4, a window the test is
    called on has [b = floor(sqrt(W)) >= 2], so the divisor [b - 1] of the
    variance term is at least 1; and the iteration is the same whatever the
    method does on the degenerate windows, those with [b <= 1]: they are
    deferred to a later iteration. *)
Theorem degenerate_window_deferred
    (self : SASA.self_ float) (objective : list float → float * list float)
    (t : Z) (s : SASA.locals float) (check check' : Z → list float → result bool) :
  let W := SASA.window self t (SASA.t0 s) in
  ((SASA.check_due self W t = Ok true → ∀ D, check W D = check' W D) →
   SASA.body_with check self objective t s = SASA.body_with check' self objective t s)
  ∧ ((4 ≤ SASA._W0 self ≤ Binary64.int64_max)%Z →
     (SASA.check_due self W t = Ok true →
      (2 ≤ SASA.batch_size (F := float) W)%Z
      ∧ (1 ≤ SASA.batch_size (F := float) W - 1)%Z)
     ∧ ((∀ W' D, (2 ≤ SASA.batch_size (F := float) W')%Z → check W' D = check' W' D) →
        SASA.body_with check self objective t s
        = SASA.body_with check' self objective t s)).
Proof.
  intros W. subst W. split; [apply body_with_due|].
  intros HW0. split.
  - intros Hdue. pose proof (due_batch_size_ge_2 self t (SASA.t0 s) HW0 Hdue). lia.
  - intros Hagree. apply body_with_due. intros Hdue D. apply Hagree.
    by apply due_batch_size_ge_2.
Qed.
End Windows.

Lemma degenerate_window_deferred_witness :
  SASA.body_with (λ _ _, Raise IndexError) Example.sasa Example.quadratic 1
    Example.at_iteration_4
  = SASA.body Example.sasa Example.quadratic 1 Example.at_iteration_4
  ∧ (2 ≤ SASA.batch_size (F := float) (SASA.window Example.sasa 8 0))%Z
  ∧ SASA.body_with
      (λ W D, if (2 <=? SASA.batch_size (F := float) W)%Z
              then SASA.convergence_check Example.sasa W D else Raise IndexError)
      Example.sasa Example.quadratic 8 Example.at_iteration_4
    = SASA.body Example.sasa Example.quadratic 8 Example.at_iteration_4.
Proof.
  pose proof (degenerate_window_deferred Example.sasa Example.quadratic 1
                Example.at_iteration_4 (λ _ _, Raise IndexError)
                (SASA.convergence_check Example.sasa)) as [Hskip _].
  pose proof (degenerate_window_deferred Example.sasa Example.quadratic 8
                Example.at_iteration_4
                (λ W D, if (2 <=? SASA.batch_size (F := float) W)%Z
                        then SASA.convergence_check Example.sasa W D
                        else Raise IndexError)
                (SASA.convergence_check Example.sasa)) as [_ Hdue].
  destruct Hdue as [Hb Hsame]; [vm_compute; split; discriminate|].
  split; [|split].
  - apply Hskip. intros Hdue'. vm_compute in Hdue'. discriminate.
  - apply Hb. vm_compute. reflexivity.
  - apply Hsame. intros W' D HW'. by rewrite (proj2 (Z.leb_le _ _) HW').
Defined.

(** C10 as stated fails: [convergence_check] has no guard of its own.
    With [W0 = 1] the test is due at [t = 1] for the window [W = 1], where
    [b = 1]; the factor [m/(b-1)] is computed as [1/0], and the call returns
    a verdict instead of raising.  With [W0 = 3] it is due at [t = 3] for
    the window [W = 3], where [b = 1] again. *)
Lemma degenerate_window_not_rejected :
  (SASA.window Example.sasa_short 1 0 = 1%Z
   ∧ SASA.check_due Example.sasa_short 1 1 = Ok true
   ∧ SASA.batch_size (F := float) 1 = 1%Z
   ∧ (of_int 1 / of_int (1 - 1))%f64 = infinity
   ∧ SASA.convergence_check Example.sasa_short 1 [0.25; 0.5]%float = Ok false)
  ∧ (SASA.window Example.sasa_three 3 0 = 3%Z
     ∧ SASA.check_due Example.sasa_three 3 3 = Ok true
     ∧ SASA.batch_size (F := float) 3 = 1%Z
     ∧ SASA.convergence_check Example.sasa_three 3 [0.25; 0.5; 1]%float = Ok false).
Proof. repeat split; vm_compute; reflexivity. Qed.

(** ** The recorded history *)

(** Two lists of floats whose first elements differ are different. *)
Ltac floats_differ :=
  let Heq := fresh "Heq" in
  intros Heq;
  apply (f_equal (λ l, match l with x :: _ => Prim2SF x | [] => S754_nan end)) in Heq;
  vm_compute in Heq; discriminate.

(** C3 (the code departs from the claim).  Two iterations of RMSProp on
    the quadratic objective from [[1; -2]]: the history that [optimize]
    returns holds the vector of the end of the last iteration in both rows.
    Entry 0 is not the parameter as it was at the end of iteration 0: the
    list holds the array [variational_param] itself, which the next
    iteration updates in place. *)
Theorem history_rows_follow_later_iterations :
  ∃ d p1 p2,
    StochasticGradientOptimizer.optimize Example.rmsprop 2 Example.quadratic
      [1; -2]%float 1%float = Ok d
    ∧ param_after Example.rmsprop Example.quadratic [1; -2]%float 1 = Ok p1
    ∧ param_after Example.rmsprop Example.quadratic [1; -2]%float 2 = Ok p2
    ∧ variational_param_history d = [p2; p2]
    ∧ p1 ≠ p2.
Proof.
  eexists _, _, _.
  split; [vm_compute; reflexivity|].
  split; [vm_compute; reflexivity|].
  split; [vm_compute; reflexivity|].
  split; [reflexivity|]. floats_differ.
Qed.

(** C4 (the code departs from the claim).  First, [n_iters = 2] and
    [smoothed_prop = 1]: the window is 2, and [smoothed_opt_param] is the
    last iterate, not the mean of the two snapshots.  Second, [n_iters = 1]
    and the default [smoothed_prop = 0.2]: the window [int(0.2)] is 0, the
    slice [[-0:]] keeps every row, and [smoothed_opt_param] is the mean of
    the one snapshot, not of the last zero snapshots. *)
Theorem smoothed_opt_param_is_not_the_mean :
  (∃ d snaps,
     StochasticGradientOptimizer.optimize Example.rmsprop 2 Example.quadratic
       [1; -2]%float 1%float = Ok d
     ∧ py_int (of_int 2 * 1)%float = Ok 2%Z
     ∧ snapshots Example.rmsprop Example.quadratic [1; -2]%float 2 = Ok snaps
     ∧ last snaps = Some (smoothed_opt_param d)
     ∧ smoothed_opt_param d ≠ mean_of_last 2 2 snaps)
  ∧ (∃ d snaps,
       StochasticGradientOptimizer.optimize Example.rmsprop 1 Example.quadratic
         [1; -2]%float StochasticGradientOptimizer.default_smoothed_prop = Ok d
       ∧ py_int (F := float)
           (of_int 1 * StochasticGradientOptimizer.default_smoothed_prop)%f64
         = Ok 0%Z
       ∧ snapshots Example.rmsprop Example.quadratic [1; -2]%float 1 = Ok snaps
       ∧ smoothed_opt_param d = mean_of_last 2 1 snaps
       ∧ smoothed_opt_param d ≠ mean_of_last 2 0 snaps).
Proof.
  split.
  - eexists _, _.
    split; [vm_compute; reflexivity|].
    split; [vm_compute; reflexivity|].
    split; [vm_compute; reflexivity|].
    split; [vm_compute; reflexivity|]. floats_differ.
  - eexists _, _.
    split; [vm_compute; reflexivity|].
    split; [vm_compute; reflexivity|].
    split; [vm_compute; reflexivity|].
    split; [vm_compute; reflexivity|]. floats_differ.
Qed.

Section Aliasing.
Context {F : Type} `{Float64 F}.

Lemma optimize_body_Ok (self : object F) (objective : list F → F * list F)
    (t : Z) (s s' : StochasticGradientOptimizer.locals F) (stop : bool) :
  StochasticGradientOptimizer.body self objective t s = Ok (s', stop) →
  stop = false
  ∧ StochasticGradientOptimizer.variational_param s'
    = StochasticGradientOptimizer.variational_param s
  ∧ StochasticGradientOptimizer.variational_param_history s'
    = StochasticGradientOptimizer.variational_param_history s
      ++ [StochasticGradientOptimizer.variational_param s].
Proof.
  unfold StochasticGradientOptimizer.body, StochasticGradientOptimizer.body_of, isub_into.
  intros Hbody.
  destruct (objective _) as [object_val object_grad].
  bind_inv Hbody as dir Hdir. destruct dir as [descent_dir history].
  bind_inv Hbody as learning_rate Hrate.
  bind_inv Hbody as updated Hupdated. by injection Hbody as <- <-.
Qed.

Lemma optimize_loop_history (self : object F) (objective : list F → F * list F)
    (ts : list Z) (s0 s : StochasticGradientOptimizer.locals F) :
  for_loop (StochasticGradientOptimizer.body self objective) ts s0 = Ok s →
  StochasticGradientOptimizer.variational_param s
  = StochasticGradientOptimizer.variational_param s0
  ∧ StochasticGradientOptimizer.variational_param_history s
    = StochasticGradientOptimizer.variational_param_history s0
      ++ replicate (length ts) (StochasticGradientOptimizer.variational_param s0).
Proof.
  revert s0. induction ts as [|t ts IH]; intros s0 Hloop; cbn [for_loop] in Hloop.
  - injection Hloop as <-. by rewrite app_nil_r.
  - destruct (StochasticGradientOptimizer.body self objective t s0)
      as [[s1 stop]|e] eqn:Hbody; [|discriminate].
    apply optimize_body_Ok in Hbody as (-> & Hparam & Hhistory).
    apply IH in Hloop as (Hparam' & Hhistory').
    split; [congruence|].
    rewrite Hhistory', Hhistory, Hparam, <- app_assoc. done.
Qed.

Lemma np_array_Ok (l h : list (list F)) : np_array l = Ok h → h = l.
Proof.
  destruct l as [|r l]; cbn; [congruence|].
  destruct (_ && _); [congruence | discriminate].
Qed.

Lemma optimize_history_is_last_iterate_rows
    (self : object F) (n_iters : Z) (objective : list F → F * list F)
    (init_param : list F) (smoothed_prop : F) (d : dict F) :
  StochasticGradientOptimizer.optimize self n_iters objective init_param smoothed_prop
  = Ok d →
  (1 ≤ n_iters)%Z
  ∧ ∃ p, param_after self objective init_param (Z.to_nat n_iters) = Ok p
         ∧ variational_param_history d = replicate (Z.to_nat n_iters) p.
Proof.
  unfold StochasticGradientOptimizer.optimize, StochasticGradientOptimizer.optimize_of,
    param_after. fold (StochasticGradientOptimizer.body (F := F)). cbn [alloc length app].
  intros Hopt. bind_inv Hopt as smoothing_window Hwindow.
  bind_inv Hopt as s Hloop. bind_inv Hopt as rows Hrows.
  apply np_array_Ok in Hrows as ->.
  pose proof (optimize_loop_history _ _ _ _ _ Hloop) as (Hparam & Hhistory).
  cbn [StochasticGradientOptimizer.variational_param
       StochasticGradientOptimizer.variational_param_history app] in Hparam, Hhistory.
  rewrite length_seqZ in Hhistory. rewrite Hhistory, fmap_replicate in Hopt.
  assert (1 ≤ n_iters)%Z as Hn.
  { destruct (Z.to_nat n_iters) eqn:Hk; [discriminate | lia]. }
  split; [done|]. rewrite Z2Nat.id by lia. rewrite Hloop. cbn [bind]. rewrite Hparam.
  eexists. split; [reflexivity|].
  destruct (replicate _ _) eqn:Hreplicate; [discriminate|]. by injection Hopt as <-.
Qed.

(** Every row of the history that [optimize] returns is the parameter
    vector of the end of the last iteration: the list that the loop fills
    holds one array [n_iters] times, and the rows are read from it after the
    loop. *)
Theorem optimize_history_is_last_iterate
    (self : object F) (n_iters : Z) (objective : list F → F * list F)
    (init_param : list F) (smoothed_prop : F) (d : dict F) :
  StochasticGradientOptimizer.optimize self n_iters objective init_param smoothed_prop
  = Ok d →
  (1 ≤ n_iters)%Z
  ∧ ∃ p, param_after self objective init_param (Z.to_nat n_iters) = Ok p
         ∧ variational_param_history d = replicate (Z.to_nat n_iters) p.
Proof. apply optimize_history_is_last_iterate_rows. Qed.
End Aliasing.

Lemma optimize_history_is_last_iterate_witness :
  ∃ d p,
    StochasticGradientOptimizer.optimize Example.rmsprop 3 Example.quadratic
      [1; -2]%float 1%float = Ok d
    ∧ param_after Example.rmsprop Example.quadratic [1; -2]%float 3 = Ok p
    ∧ variational_param_history d = [p; p; p].
Proof.
  pose proof (optimize_history_is_last_iterate Example.rmsprop 3 Example.quadratic
                [1; -2]%float 1%float) as Hrows.
  destruct (StochasticGradientOptimizer.optimize Example.rmsprop 3 Example.quadratic
              [1; -2]%float 1%float) as [d|e] eqn:Hopt;
    [|vm_compute in Hopt; discriminate].
  destruct (Hrows d eq_refl) as (_ & p & Hp & Hd). by exists d, p.
Defined.

(** ** Histories grow by appending *)

Section Histories.
Context {F : Type} `{Float64 F} `{Library F}.

Lemma optimize_loop_lengths (self : object F) (objective : list F → F * list F)
    (ts : list Z) (s0 s : StochasticGradientOptimizer.locals F) :
  for_loop (StochasticGradientOptimizer.body self objective) ts s0 = Ok s →
  length (StochasticGradientOptimizer.value_history s)
  = (length (StochasticGradientOptimizer.value_history s0) + length ts)%nat.
Proof.
  revert s0. induction ts as [|t ts IH]; intros s0 Hloop; cbn [for_loop] in Hloop.
  - injection Hloop as <-. cbn. lia.
  - destruct (StochasticGradientOptimizer.body self objective t s0)
      as [[s1 stop]|e] eqn:Hbody; [|discriminate].
    unfold StochasticGradientOptimizer.body, StochasticGradientOptimizer.body_of,
      isub_into in Hbody.
    destruct (objective _) as [object_val object_grad].
    bind_inv Hbody as dir Hdir. destruct dir as [descent_dir history].
    bind_inv Hbody as learning_rate Hrate.
    bind_inv Hbody as updated Hupdated. injection Hbody as <- <-.
    apply IH in Hloop. rewrite Hloop.
    cbn [StochasticGradientOptimizer.value_history]. rewrite length_app. cbn. lia.
Qed.

(** When [optimize] returns, both histories have one entry for each of the
    [n_iters] iterations. *)
Theorem optimize_history_lengths
    (self : object F) (n_iters : Z) (objective : list F → F * list F)
    (init_param : list F) (smoothed_prop : F) (d : dict F) :
  StochasticGradientOptimizer.optimize self n_iters objective init_param smoothed_prop
  = Ok d →
  Z.of_nat (length (value_history d)) = n_iters
  ∧ Z.of_nat (length (variational_param_history d)) = n_iters.
Proof.
  intros Hopt.
  destruct (optimize_history_is_last_iterate_rows self n_iters objective init_param
              smoothed_prop d Hopt) as (Hn & p & _ & Hrows).
  rewrite Hrows, length_replicate. split; [|lia].
  unfold StochasticGradientOptimizer.optimize, StochasticGradientOptimizer.optimize_of in Hopt.
  fold (StochasticGradientOptimizer.body (F := F)) in Hopt. cbn [alloc length app] in Hopt.
  bind_inv Hopt as smoothing_window Hwindow.
  bind_inv Hopt as s Hloop. bind_inv Hopt as rows Hrows'.
  destruct rows; [discriminate|]. injection Hopt as <-. cbn [value_history].
  apply optimize_loop_lengths in Hloop. rewrite Hloop, length_seqZ. cbn. lia.
Qed.

(** An iteration of the loop of [convergence_test] that completes appends
    one entry to each of the three histories and changes none of the
    entries they held; the entry appended to [variational_param_history] is
    the array [variational_param] itself. *)
Theorem convergence_test_appends
    (self : SASA.self_ F) (objective : list F → F * list F) (t : Z)
    (s s' : SASA.locals F) (stop : bool) :
  SASA.body self objective t s = Ok (s', stop) →
  (∃ object_val, SASA.value_history s' = SASA.value_history s ++ [object_val])
  ∧ (∃ Delta, SASA.Delta_history s' = SASA.Delta_history s ++ [Delta])
  ∧ SASA.variational_param_history s'
    = SASA.variational_param_history s ++ [SASA.variational_param s]
  ∧ SASA.variational_param s' = SASA.variational_param s.
Proof.
  intros Hbody. unfold SASA.body, SASA.body_with in Hbody.
  destruct (objective _) as [object_val object_grad].
  bind_inv Hbody as dir Hdir. destruct dir as [descent_dir history].
  bind_inv Hbody as updated Hupdated.
  bind_inv Hbody as dot Hdot.
  bind_inv Hbody as due Hdue.
  bind_inv Hbody as s1 Hs1.
  assert (s1 = s') as ->.
  { destruct (SASA.SKL s1); [|discriminate]. by injection Hbody as -> _. }
  clear Hbody. destruct due.
  - bind_inv Hs1 as convg Hconvg. destruct convg.
    + bind_inv Hs1 as latter Hlatter. injection Hs1 as <-. cbn. by eauto 10.
    + injection Hs1 as <-. cbn. by eauto 10.
  - injection Hs1 as <-. cbn. by eauto 10.
Qed.
End Histories.

Lemma optimize_history_lengths_witness :
  ∃ d, StochasticGradientOptimizer.optimize Example.rmsprop 3 Example.quadratic
         [1; -2]%float 1%float = Ok d
       ∧ length (value_history d) = 3%nat
       ∧ length (variational_param_history d) = 3%nat.
Proof.
  pose proof (optimize_history_lengths Example.rmsprop 3 Example.quadratic
                [1; -2]%float 1%float) as Hlengths.
  destruct (StochasticGradientOptimizer.optimize Example.rmsprop 3 Example.quadratic
              [1; -2]%float 1%float) as [d|e] eqn:Hopt;
    [|vm_compute in Hopt; discriminate].
  destruct (Hlengths d eq_refl) as (Hv & Hp). exists d. repeat split; lia.
Defined.

Lemma convergence_test_appends_witness :
  ∃ s', SASA.body Example.sasa Example.quadratic 4 Example.at_iteration_4 = Ok (s', false)
        ∧ SASA.variational_param_history s' = [0; 0; 0; 0]%nat.
Proof.
  eexists. split; [vm_compute; reflexivity|].
  refine (proj1 (proj2 (proj2 (convergence_test_appends Example.sasa Example.quadratic 4
                                 Example.at_iteration_4 _ false _)))).
  vm_compute. reflexivity.
Defined.

(** * Further properties *)

(** ** When the stationarity test raises *)

Section CheckRaises.
Context {F : Type} `{Float64 F} `{Library F}.


Lemma np_reshape_Ok (l : list F) (m b : Z) :
  is_Ok (np_reshape l m b) = true ↔
  (0 ≤ m ∧ 0 ≤ b ∧ Z.of_nat (length l) = m * b)%Z.
Proof. unfold np_reshape. by destruct (decide _). Qed.

Lemma length_slice_from_last (k : Z) (l : list F) :
  (0 ≤ k)%Z →
  length (slice_from (- k) l)
  = if decide (k = 0)%Z then length l else Nat.min (length l) (Z.to_nat k).
Proof.
  intros Hk. destruct (decide (k = 0)%Z) as [->|Hne]; [done|].
  rewrite slice_from_last by lia. rewrite length_drop. lia.
Qed.

(** The call returns exactly when the slice it takes has [b*b] elements. *)
Lemma convergence_check_Ok (self : SASA.self_ F) (W : Z) (Delta_history : list F) :
  is_Ok (SASA.convergence_check self W Delta_history) = true ↔
  (0 < SASA.batch_size W
   ∧ SASA.batch_size W * SASA.batch_size W ≤ Z.of_nat (length Delta_history))%Z
  ∨ (SASA.batch_size W = 0%Z ∧ Delta_history = []).
Proof.
  unfold SASA.convergence_check. fold (SASA.batch_size W).
  set (b := SASA.batch_size W).
  destruct (np_reshape _ b b) as [rows|e] eqn:Hreshape; cbn [bind].
  - assert (is_Ok (np_reshape (slice_from (- (b * b)) Delta_history) b b) = true)
      as Hok by by rewrite Hreshape.
    apply np_reshape_Ok in Hok as (Hb & _ & Hlen).
    rewrite length_slice_from_last in Hlen by nia.
    split; [intros _ | by destruct (_ && _)].
    destruct (decide (b * b = 0)%Z) as [Hzero|Hpos].
    + right. split; [nia|]. apply length_zero_iff_nil. nia.
    + left. split; nia.
  - split; [done|]. intros Hshape.
    assert (is_Ok (np_reshape (slice_from (- (b * b)) Delta_history) b b) = true)
      as Hok; [|by rewrite Hreshape in Hok].
    apply np_reshape_Ok. rewrite length_slice_from_last by nia.
    destruct Hshape as [(Hb & Hlen) | (Hb & ->)].
    + rewrite decide_False by nia. repeat split; nia.
    + rewrite Hb. by rewrite decide_True.
Qed.

End CheckRaises.

(** ** Runs of [convergence_test] *)

Section AnchorRuns.
Context {F : Type} `{Float64 F} `{Library F}.

(** Iteration 0 cannot reduce the learning rate when the window it
    computes has no positive batch size: the test is skipped, or it cannot
    reshape the one recorded Delta; the stopping rule then reads the
    unassigned [SKL]. *)
Lemma convergence_test_raises_at_anchor
    (self : SASA.self_ F) (n_iters : Z) (objective : list F → F * list F)
    (init_param : list F) :
  (SASA.batch_size (SASA.window self 0 0) ≤ 0)%Z →
  (1 ≤ n_iters)%Z →
  ∃ e, SASA.convergence_test self n_iters objective init_param = Raise e.
Proof.
  intros Hanchor Hn. unfold SASA.convergence_test.
  destruct (getattr (SASA._sgo self) "learning_rate") as [lr|e]; [|by eexists].
  cbn [bind alloc length app]. rewrite seqZ_first by done. cbn [for_loop].
  destruct (SASA.body self objective 0 _) as [[s' stop]|e] eqn:Hbody; [|by eexists].
  exfalso. unfold SASA.body, SASA.body_with in Hbody.
  cbn [SASA.mem SASA.variational_param SASA.history SASA.learning_rate SASA.t0
       SASA.Delta_history SASA.SKL] in Hbody.
  destruct (objective _) as [object_val object_grad].
  bind_inv Hbody as dir Hdir. destruct dir as [descent_dir history].
  bind_inv Hbody as updated Hupdated.
  bind_inv Hbody as dot Hdot.
  bind_inv Hbody as due Hdue.
  bind_inv Hbody as s1 Hs1.
  destruct due.
  - bind_inv Hs1 as convg Hconvg.
    assert (is_Ok (SASA.convergence_check self (SASA.window self 0 0)
                     ([] ++ [(dot - lit 0.5 * lr * np_sum (map fsq descent_dir))%f64]))
            = true) as Hok by by rewrite Hconvg.
    apply convergence_check_Ok in Hok.
    destruct Hok as [[? _]|[_ ?]]; [lia | done].
  - injection Hs1 as <-. cbn [SASA.SKL] in Hbody. discriminate.
Qed.
End AnchorRuns.

(** *** In real arithmetic *)

Section RealRuns.
Context {F : Type} `{RealArith F} `{Library F}.

Lemma batch_size_bounds (W : Z) :
  (0 ≤ W)%Z →
  (0 ≤ SASA.batch_size W)%Z ∧ (SASA.batch_size W * SASA.batch_size W ≤ W)%Z.
Proof.
  intros HW. unfold SASA.batch_size.
  destruct (floor_int_spec (fsqrt (of_int W))) as [Hle Hlt].
  assert (0 <= IZR W)%R as HW' by by apply (IZR_le 0).
  rewrite to_R_sqrt, to_R_of_int in Hle, Hlt by (rewrite to_R_of_int; lra).
  set (b := floor_int (fsqrt (of_int W))) in *.
  pose proof (sqrt_pos (IZR W)) as Hroot.
  pose proof (sqrt_sqrt (IZR W) HW') as Hsquare.
  assert (IZR (-1) < IZR b)%R as Hb by lra. apply lt_IZR in Hb.
  split; [lia|].
  apply le_IZR. rewrite mult_IZR.
  assert (0 <= IZR b)%R by (apply (IZR_le 0); lia). nra.
Qed.

Lemma batch_size_0 : SASA.batch_size 0 = 0%Z.
Proof.
  destruct (batch_size_bounds 0) as [Hle Hsq]; [done|].
  set (b := SASA.batch_size 0) in *.
  destruct (Z.eq_dec b 0%Z) as [|Hne]; [done|]. assert (1 ≤ b)%Z by lia. nia.
Qed.

(** At the anchor no Delta value is behind the window. *)
Lemma window_at_anchor (self : SASA.self_ F) (t : Z) :
  SASA.window self t t = Z.max (Z.min 0 (SASA._W0 self)) 0.
Proof.
  unfold SASA.window. rewrite Z.sub_diag. f_equal.
  destruct (ceil_int_spec (SASA._theta self * of_int 0)%f64) as [Hle Hlt].
  rewrite to_R_mul, to_R_of_int, Rmult_0_r in Hle, Hlt.
  apply (le_IZR 0) in Hle.
  assert (IZR (ceil_int (SASA._theta self * of_int 0)%f64) < IZR 1)%R as Hlt' by lra.
  apply lt_IZR in Hlt'. lia.
Qed.

(** Whatever the controller, the strategy, the objective and the initial
    parameter, a call of [convergence_test] for at least one iteration
    raises: either before the loop, or in iteration 0, where no reduction
    can take place (the window is 0, so the test is skipped when [W0 >= 1]
    and cannot reshape the one recorded Delta when [W0 <= 0]) and the
    stopping rule then reads the unassigned [SKL]. *)
Theorem convergence_test_raises
    (self : SASA.self_ F) (n_iters : Z) (objective : list F → F * list F)
    (init_param : list F) :
  (1 ≤ n_iters)%Z →
  ∃ e, SASA.convergence_test self n_iters objective init_param = Raise e.
Proof.
  intros Hn. apply convergence_test_raises_at_anchor; [|done].
  rewrite window_at_anchor.
  replace (Z.max (Z.min 0 (SASA._W0 self)) 0) with 0%Z by lia.
  by rewrite batch_size_0.
Qed.
End RealRuns.

Lemma convergence_test_raises_witness :
  ∃ e, SASA.convergence_test (H0 := RealRun.library) RealRun.sasa 1
         (λ p, (0%R, p)) [1; 2]%R = Raise e.
Proof.
  apply (convergence_test_raises (H1 := RealRun.library) RealRun.sasa 1
           (λ p, (0%R, p)) [1; 2]%R).
  lia.
Defined.

(** *** In binary64 *)

Section FloatRuns.
Context `{Library float}.

(** In binary64 the window of iteration 0 is 0, or, when [theta] is
    infinite or NaN, the lesser of [W0] and 0: it is never positive, and
    [b = floor(sqrt(W))] is then 0 or, for a negative [W], the least
    int64. *)
Lemma float_window_at_anchor (self : SASA.self_ float) :
  (SASA.batch_size (F := float) (SASA.window self 0 0) ≤ 0)%Z.
Proof.
  apply (float_floor_sqrt_nonpositive (SASA.window self 0 0)).
  unfold SASA.window. rewrite Z.sub_diag.
  pose proof (float_ceil_anchor (SASA._theta self)) as Hceil.
  change (ceil_int (SASA._theta self * of_int 0)%f64)
    with (Binary64.astype_int
            (Binary64.round_to_Z Gt (SASA._theta self * Binary64.of_Z 0)%float)).
  lia.
Qed.

(** In binary64 too, whatever the controller, the strategy, the objective,
    the float64 initial parameter and the library functions, a call of
    [convergence_test] for at least one iteration raises, before the loop
    or in iteration 0. *)
Theorem convergence_test_raises_binary64
    (self : SASA.self_ float) (n_iters : Z) (objective : list float → float * list float)
    (init_param : list float) :
  (1 ≤ n_iters)%Z →
  ∃ e, SASA.convergence_test self n_iters objective init_param = Raise e.
Proof.
  intros Hn. apply convergence_test_raises_at_anchor; [|done].
  apply float_window_at_anchor.
Qed.
End FloatRuns.

Lemma convergence_test_raises_binary64_witness :
  ∃ e, SASA.convergence_test Example.sasa 3 Example.quadratic [1; -2]%float = Raise e.
Proof.
  apply (convergence_test_raises_binary64 Example.sasa 3 Example.quadratic [1; -2]%float).
  lia.
Defined.

(** ** Runs of [optimize] on a well-shaped objective *)

Section OptimizeRuns.
Context {F : Type} `{Float64 F}.

Lemma descent_direction_shape (self : object F) (grad : list F) (acc : option (list F)) :
  (∃ lr beta jitter, RMSProp.new lr beta jitter = Ok self)
  ∨ (∃ lr jitter, AdaGrad.new lr jitter = Ok self) →
  (∀ a, acc = Some a → length a = length grad) →
  ∃ descent_dir history,
    descent_direction self grad acc = Ok (descent_dir, history)
    ∧ length descent_dir = length grad
    ∧ length history = length grad.
Proof.
  intros Hself Hshape.
  assert (length (match acc with None => map fsq grad | Some h => h end) = length grad)
    as Hacc.
  { destruct acc as [a|]; [by apply Hshape | by rewrite length_map]. }
  destruct Hself as [(lr & beta & jitter & Hnew) | (lr & jitter & Hnew)].
  - apply RMSProp_attributes in Hnew as (Htype & Hbeta & Hjitter & _).
    rewrite descent_direction_RMSProp by done. unfold RMSProp.descent_direction.
    rewrite Hbeta. cbn [bind].
    rewrite broadcast_same_shape by (rewrite !length_map; lia). cbn [bind].
    rewrite Hjitter. cbn [bind].
    rewrite broadcast_same_shape
      by (rewrite length_map, length_zip_with, !length_map; lia).
    cbn [bind]. eexists _, _. split; [reflexivity|].
    rewrite !length_zip_with, !length_map, length_zip_with, !length_map. lia.
  - apply AdaGrad_attributes in Hnew as (Htype & Hjitter & _).
    rewrite descent_direction_AdaGrad by done. unfold AdaGrad.descent_direction.
    rewrite broadcast_same_shape by (rewrite !length_map; lia). cbn [bind].
    rewrite Hjitter. cbn [bind].
    rewrite broadcast_same_shape
      by (rewrite length_map, length_zip_with, !length_map; lia).
    cbn [bind]. eexists _, _. split; [reflexivity|].
    rewrite !length_zip_with, !length_map, length_zip_with, !length_map. lia.
Qed.

Lemma learning_rate_bound (self : object F) :
  (∃ lr beta jitter, RMSProp.new lr beta jitter = Ok self)
  ∨ (∃ lr jitter, AdaGrad.new lr jitter = Ok self) →
  ∃ lr, getattr self "_learning_rate" = Ok lr.
Proof.
  intros [(lr & beta & jitter & Hnew) | (lr & jitter & Hnew)]; exists lr.
  - by apply RMSProp_attributes in Hnew as (_ & _ & _ & ? & _).
  - by apply AdaGrad_attributes in Hnew as (_ & _ & ? & _).
Qed.

(** The loop keeps the one array of the run, of the shape it started with,
    and an accumulator of that shape; under these conditions no iteration
    raises. *)
Lemma optimize_loop_returns (self : object F) (objective : list F → F * list F)
    (d : nat) (ts : list Z) (s0 : StochasticGradientOptimizer.locals F) (a0 : list F) :
  (∃ lr beta jitter, RMSProp.new lr beta jitter = Ok self)
  ∨ (∃ lr jitter, AdaGrad.new lr jitter = Ok self) →
  (∀ p, length p = d → length (objective p).2 = d) →
  StochasticGradientOptimizer.variational_param s0 = 0%nat →
  StochasticGradientOptimizer.mem s0 = [a0] →
  length a0 = d →
  (∀ h, StochasticGradientOptimizer.history s0 = Some h → length h = d) →
  ∃ s a,
    for_loop (StochasticGradientOptimizer.body self objective) ts s0 = Ok s
    ∧ StochasticGradientOptimizer.variational_param s = 0%nat
    ∧ StochasticGradientOptimizer.mem s = [a]
    ∧ length a = d.
Proof.
  intros Hself Hobjective. revert s0 a0.
  induction ts as [|t ts IH]; intros s0 a0 Hparam Hmem Ha0 Hhistory; cbn [for_loop].
  - by exists s0, a0.
  - unfold StochasticGradientOptimizer.body at 1.
    unfold StochasticGradientOptimizer.body_of, isub_into. rewrite Hparam, Hmem.
    change (deref [a0] 0%nat) with a0.
    pose proof (Hobjective a0 Ha0) as Hgrad.
    destruct (objective a0) as [object_val object_grad]. cbn [snd] in Hgrad.
    destruct (descent_direction_shape self object_grad
                (StochasticGradientOptimizer.history s0) Hself)
      as (descent_dir & history & -> & Hdir & Hacc).
    { intros h Hh. rewrite (Hhistory h Hh). done. }
    cbn [bind]. destruct (learning_rate_bound self Hself) as (lr & ->). cbn [bind].
    rewrite isub_same_shape by (rewrite length_map; lia). cbn [bind].
    eapply IH; cbn; [done | done | | ].
    + rewrite length_zip_with, length_map. lia.
    + intros h [= <-]. lia.
Qed.

Lemma optimize_returns_lemma
    (self : object F) (n_iters : Z) (objective : list F → F * list F)
    (init_param : list F) (smoothed_prop : F) :
  (∃ lr beta jitter, RMSProp.new lr beta jitter = Ok self)
  ∨ (∃ lr jitter, AdaGrad.new lr jitter = Ok self) →
  (1 ≤ n_iters)%Z →
  (∀ p, length p = length init_param → length (objective p).2 = length init_param) →
  is_Ok (py_int (of_int n_iters * smoothed_prop)%f64) = true →
  ∃ d, StochasticGradientOptimizer.optimize self n_iters objective init_param
         smoothed_prop = Ok d.
Proof.
  intros Hself Hn Hobjective Hwindow.
  unfold StochasticGradientOptimizer.optimize, StochasticGradientOptimizer.optimize_of.
  fold (StochasticGradientOptimizer.body (F := F)). cbn [alloc length app].
  destruct (py_int _) as [smoothing_window|e]; [|discriminate]. cbn [bind].
  destruct (optimize_loop_returns self objective (length init_param) (seqZ 0 n_iters)
              (StochasticGradientOptimizer.Locals 0%nat None [] [] [] [init_param])
              init_param Hself Hobjective)
    as (s & a & Hloop & Hparam & Hmem & Ha); [done..|].
  rewrite Hloop. cbn [bind].
  pose proof (optimize_loop_history _ _ _ _ _ Hloop) as (_ & Hhistory).
  cbn [StochasticGradientOptimizer.variational_param
       StochasticGradientOptimizer.variational_param_history app] in Hhistory.
  rewrite Hhistory, length_seqZ, fmap_replicate.
  destruct (Z.to_nat n_iters) as [|k] eqn:Hk; [lia|].
  cbn [replicate np_array].
  assert (forallb (λ r', Nat.eqb (length r') (length (deref (StochasticGradientOptimizer.mem s) 0%nat)))
            (deref (StochasticGradientOptimizer.mem s) 0%nat
             :: replicate k (deref (StochasticGradientOptimizer.mem s) 0%nat)) = true)
    as ->.
  { apply forallb_forall. intros r Hr. apply Nat.eqb_eq.
    destruct Hr as [<-|Hr]; [done|]. apply list_elem_of_In, elem_of_replicate in Hr.
    by destruct Hr as [-> _]. }
  cbn [bind]. by eexists.
Qed.

(** An int64 [init_param] does not survive the first update. *)
Lemma optimize_of_int64_raises
    (self : object F) (n_iters : Z) (objective : list F → F * list F)
    (init_param : list F) (smoothed_prop : F) :
  (∃ lr beta jitter, RMSProp.new lr beta jitter = Ok self)
  ∨ (∃ lr jitter, AdaGrad.new lr jitter = Ok self) →
  (1 ≤ n_iters)%Z →
  is_Ok (py_int (of_int n_iters * smoothed_prop)%f64) = true →
  ∃ msg, StochasticGradientOptimizer.optimize_of dtype_int64 self n_iters objective
           init_param smoothed_prop = Raise (TypeError msg).
Proof.
  intros Hself Hn Hwindow.
  unfold StochasticGradientOptimizer.optimize_of. cbn [alloc length app].
  destruct (py_int _) as [smoothing_window|e]; [|discriminate]. cbn [bind].
  rewrite seqZ_first by done. cbn [for_loop].
  unfold StochasticGradientOptimizer.body_of at 1.
  cbn [StochasticGradientOptimizer.mem StochasticGradientOptimizer.variational_param
       StochasticGradientOptimizer.history].
  change (deref [init_param] 0%nat) with init_param.
  destruct (objective init_param) as [object_val object_grad].
  destruct (descent_direction_shape self object_grad None Hself)
    as (descent_dir & history & -> & _); [done|].
  cbn [bind]. destruct (learning_rate_bound self Hself) as (lr & ->).
  cbn [bind isub_into]. by eexists.
Qed.

(** For a strategy as its constructor builds it, at least one iteration, an
    objective whose gradient has the shape of the parameter, and a
    [smoothed_prop] for which [int(n_iters*smoothed_prop)] is defined:
    on a float64 [init_param], [optimize] returns, nothing in the loop or
    after it raises; on an int64 [init_param] it raises [TypeError] in the
    first iteration, where [variational_param -= ...] would have to cast a
    float64 array into the int64 one. *)
Theorem optimize_returns
    (self : object F) (n_iters : Z) (objective : list F → F * list F)
    (init_param : list F) (smoothed_prop : F) :
  (∃ lr beta jitter, RMSProp.new lr beta jitter = Ok self)
  ∨ (∃ lr jitter, AdaGrad.new lr jitter = Ok self) →
  (1 ≤ n_iters)%Z →
  (∀ p, length p = length init_param → length (objective p).2 = length init_param) →
  is_Ok (py_int (of_int n_iters * smoothed_prop)%f64) = true →
  (∃ d, StochasticGradientOptimizer.optimize self n_iters objective init_param
          smoothed_prop = Ok d)
  ∧ ∃ msg, StochasticGradientOptimizer.optimize_of dtype_int64 self n_iters objective
             init_param smoothed_prop = Raise (TypeError msg).
Proof.
  intros Hself Hn Hobjective Hwindow. split.
  - by apply optimize_returns_lemma.
  - by apply optimize_of_int64_raises.
Qed.
End OptimizeRuns.

(** ** Shapes, the averaged parameter and the recorded values *)

Section OptimizeResults.
Context {F : Type} `{Float64 F}.

Lemma deref_assign_length (σ : store F) (l : loc) (a : list F) :
  length a = length (deref σ l) → length (deref (assign l a σ) l) = length (deref σ l).
Proof.
  unfold deref, assign, store in *. intros Ha.
  destruct (decide (l < length σ)%nat) as [Hl|Hl].
  - by rewrite list_lookup_insert_eq.
  - by rewrite list_insert_ge by lia.
Qed.

Lemma optimize_loop_shape (self : object F) (objective : list F → F * list F)
    (ts : list Z) (s0 s : StochasticGradientOptimizer.locals F) :
  for_loop (StochasticGradientOptimizer.body self objective) ts s0 = Ok s →
  length (deref (StochasticGradientOptimizer.mem s)
            (StochasticGradientOptimizer.variational_param s))
  = length (deref (StochasticGradientOptimizer.mem s0)
              (StochasticGradientOptimizer.variational_param s0)).
Proof.
  revert s0. induction ts as [|t ts IH]; intros s0 Hloop; cbn [for_loop] in Hloop.
  - by injection Hloop as <-.
  - destruct (StochasticGradientOptimizer.body self objective t s0)
      as [[s1 stop]|e] eqn:Hbody; [|discriminate].
    pose proof (optimize_body_Ok _ _ _ _ _ _ Hbody) as (-> & _ & _).
    rewrite (IH _ Hloop). clear IH Hloop.
    unfold StochasticGradientOptimizer.body, StochasticGradientOptimizer.body_of,
      isub_into in Hbody.
    destruct (objective _) as [object_val object_grad].
    bind_inv Hbody as dir Hdir. destruct dir as [descent_dir history].
    bind_inv Hbody as learning_rate Hrate.
    bind_inv Hbody as updated Hupdated. injection Hbody as <-.
    cbn [StochasticGradientOptimizer.mem StochasticGradientOptimizer.variational_param].
    apply deref_assign_length. by apply isub_length in Hupdated.
Qed.

(** The length of the parameter vector is constant over a run: every row of
    the history that [optimize] returns, and the averaged parameter, have
    the length of [init_param]. *)
Theorem optimize_shapes
    (self : object F) (n_iters : Z) (objective : list F → F * list F)
    (init_param : list F) (smoothed_prop : F) (d : dict F) :
  StochasticGradientOptimizer.optimize self n_iters objective init_param smoothed_prop
  = Ok d →
  length (smoothed_opt_param d) = length init_param
  ∧ Forall (λ row, length row = length init_param) (variational_param_history d).
Proof.
  intros Hopt.
  destruct (optimize_history_is_last_iterate_rows _ _ _ _ _ _ Hopt)
    as (Hn & p & Hp & Hrows).
  assert (length p = length init_param) as Hlen.
  { unfold param_after in Hp. cbn [alloc length app] in Hp.
    bind_inv Hp as s Hloop. injection Hp as <-.
    by rewrite (optimize_loop_shape _ _ _ _ _ Hloop). }
  split; [|rewrite Hrows; by apply Forall_replicate].
  unfold StochasticGradientOptimizer.optimize, StochasticGradientOptimizer.optimize_of in Hopt.
  fold (StochasticGradientOptimizer.body (F := F)) in Hopt. cbn [alloc length app] in Hopt.
  bind_inv Hopt as smoothing_window Hwindow.
  bind_inv Hopt as s Hloop. bind_inv Hopt as rows Hrows'.
  destruct rows as [|row rows]; [discriminate|]. injection Hopt as <-.
  cbn [smoothed_opt_param variational_param_history] in *.
  unfold np_mean_axis0. rewrite length_map, length_seq.
  destruct (Z.to_nat n_iters); [discriminate|]. by injection Hrows as -> _.
Qed.

Lemma optimize_loop_values_prefix (self : object F) (objective : list F → F * list F)
    (ts : list Z) (s0 s : StochasticGradientOptimizer.locals F) :
  for_loop (StochasticGradientOptimizer.body self objective) ts s0 = Ok s →
  ∃ rest, StochasticGradientOptimizer.value_history s
          = StochasticGradientOptimizer.value_history s0 ++ rest.
Proof.
  revert s0. induction ts as [|t ts IH]; intros s0 Hloop; cbn [for_loop] in Hloop.
  - injection Hloop as <-. exists []. by rewrite app_nil_r.
  - destruct (StochasticGradientOptimizer.body self objective t s0)
      as [[s1 stop]|e] eqn:Hbody; [|discriminate].
    pose proof (optimize_body_Ok _ _ _ _ _ _ Hbody) as (-> & _ & _).
    destruct (IH _ Hloop) as (rest & ->).
    unfold StochasticGradientOptimizer.body, StochasticGradientOptimizer.body_of,
      isub_into in Hbody.
    destruct (objective _) as [object_val object_grad].
    bind_inv Hbody as dir Hdir. destruct dir as [descent_dir history].
    bind_inv Hbody as learning_rate Hrate.
    bind_inv Hbody as updated Hupdated. injection Hbody as <-.
    cbn [StochasticGradientOptimizer.value_history]. rewrite <- app_assoc. eauto.
Qed.

Lemma optimize_loop_values (self : object F) (objective : list F → F * list F)
    (ts : list Z) (s0 s : StochasticGradientOptimizer.locals F) (i : nat) :
  for_loop (StochasticGradientOptimizer.body self objective) ts s0 = Ok s →
  (i < length ts)%nat →
  ∃ si,
    for_loop (StochasticGradientOptimizer.body self objective) (take i ts) s0 = Ok si
    ∧ StochasticGradientOptimizer.value_history s
        !! (length (StochasticGradientOptimizer.value_history s0) + i)%nat
      = Some (objective (deref (StochasticGradientOptimizer.mem si)
                           (StochasticGradientOptimizer.variational_param si))).1.
Proof.
  revert s0 i. induction ts as [|t ts IH]; intros s0 i Hloop Hi; [cbn in Hi; lia|].
  cbn [for_loop] in Hloop.
  destruct (StochasticGradientOptimizer.body self objective t s0)
    as [[s1 stop]|e] eqn:Hbody; [|discriminate].
  pose proof (optimize_body_Ok _ _ _ _ _ _ Hbody) as (-> & _ & _).
  assert (StochasticGradientOptimizer.value_history s1
          = StochasticGradientOptimizer.value_history s0
            ++ [(objective (deref (StochasticGradientOptimizer.mem s0)
                              (StochasticGradientOptimizer.variational_param s0))).1])
    as Hvalues.
  { unfold StochasticGradientOptimizer.body, StochasticGradientOptimizer.body_of,
      isub_into in Hbody.
    destruct (objective _) as [object_val object_grad].
    bind_inv Hbody as dir Hdir. destruct dir as [descent_dir history].
    bind_inv Hbody as learning_rate Hrate.
    bind_inv Hbody as updated Hupdated. by injection Hbody as <-. }
  destruct i as [|i].
  - exists s0. split; [done|].
    destruct (optimize_loop_values_prefix _ _ _ _ _ Hloop) as (rest & ->).
    rewrite Hvalues, <- app_assoc, Nat.add_0_r.
    by rewrite lookup_app_r, Nat.sub_diag by lia.
  - destruct (IH s1 i Hloop) as (si & Hsi & Hlookup); [cbn in Hi; lia|].
    exists si. split; [cbn [take for_loop]; by rewrite Hbody|].
    rewrite Hvalues, length_app in Hlookup. cbn [length] in Hlookup.
    by replace (length (StochasticGradientOptimizer.value_history s0) + S i)%nat
      with (length (StochasticGradientOptimizer.value_history s0) + 1 + i)%nat by lia.
Qed.

(** Entry [i] of [value_history] is the value of the objective at the
    parameter with which iteration [i] starts: at [init_param] for
    [i = 0], and at the parameter as the first [i] iterations left it
    otherwise. *)
Theorem optimize_value_history
    (self : object F) (n_iters : Z) (objective : list F → F * list F)
    (init_param : list F) (smoothed_prop : F) (d : dict F) (i : nat) :
  StochasticGradientOptimizer.optimize self n_iters objective init_param smoothed_prop
  = Ok d →
  (Z.of_nat i < n_iters)%Z →
  ∃ p, param_after self objective init_param i = Ok p
       ∧ value_history d !! i = Some (objective p).1.
Proof.
  intros Hopt Hi.
  unfold StochasticGradientOptimizer.optimize, StochasticGradientOptimizer.optimize_of in Hopt.
  fold (StochasticGradientOptimizer.body (F := F)) in Hopt. cbn [alloc length app] in Hopt.
  bind_inv Hopt as smoothing_window Hwindow.
  bind_inv Hopt as s Hloop. bind_inv Hopt as rows Hrows.
  destruct rows as [|row rows]; [discriminate|]. injection Hopt as <-.
  cbn [value_history].
  destruct (optimize_loop_values _ _ _ _ _ i Hloop) as (si & Hsi & Hlookup).
  { rewrite length_seqZ. lia. }
  unfold param_after. cbn [alloc length app].
  assert (take i (seqZ 0 n_iters) = seqZ 0 (Z.of_nat i)) as Htake.
  { unfold seqZ. rewrite <- fmap_take, take_seq. do 2 f_equal. lia. }
  rewrite Htake in Hsi. rewrite Hsi. cbn [bind]. eexists. split; [reflexivity|].
  exact Hlookup.
Qed.
End OptimizeResults.

Lemma optimize_returns_witness :
  (∃ d, StochasticGradientOptimizer.optimize Example.rmsprop 3 Example.quadratic
          [1; -2]%float 1%float = Ok d)
  ∧ ∃ msg, StochasticGradientOptimizer.optimize_of dtype_int64 Example.rmsprop 3
             Example.quadratic [1; -2]%float 1%float = Raise (TypeError msg).
Proof.
  apply (optimize_returns Example.rmsprop 3 Example.quadratic [1; -2]%float 1%float).
  - left. exists 0.5%float, RMSProp.default_beta, RMSProp.default_jitter. reflexivity.
  - lia.
  - intros p Hp. unfold Example.quadratic. cbn [snd]. by rewrite length_map.
  - vm_compute. reflexivity.
Defined.

Lemma optimize_shapes_witness :
  ∃ d, StochasticGradientOptimizer.optimize Example.rmsprop 3 Example.quadratic
         [1; -2]%float 1%float = Ok d
       ∧ length (smoothed_opt_param d) = 2%nat
       ∧ Forall (λ row, length row = 2%nat) (variational_param_history d).
Proof.
  pose proof (optimize_shapes Example.rmsprop 3 Example.quadratic
                [1; -2]%float 1%float) as Hshapes.
  destruct (StochasticGradientOptimizer.optimize Example.rmsprop 3 Example.quadratic
              [1; -2]%float 1%float) as [d|e] eqn:Hopt;
    [|vm_compute in Hopt; discriminate].
  exists d. split; [done|]. exact (Hshapes d eq_refl).
Defined.

Lemma optimize_value_history_witness :
  ∃ d p, StochasticGradientOptimizer.optimize Example.rmsprop 3 Example.quadratic
           [1; -2]%float 1%float = Ok d
         ∧ param_after Example.rmsprop Example.quadratic [1; -2]%float 1 = Ok p
         ∧ value_history d !! 1%nat = Some (Example.quadratic p).1.
Proof.
  pose proof (optimize_value_history Example.rmsprop 3 Example.quadratic
                [1; -2]%float 1%float) as Hvalues.
  destruct (StochasticGradientOptimizer.optimize Example.rmsprop 3 Example.quadratic
              [1; -2]%float 1%float) as [d|e] eqn:Hopt;
    [|vm_compute in Hopt; discriminate].
  destruct (Hvalues d 1%nat eq_refl) as (p & Hp & Hvalue); [lia|]. by exists d, p.
Defined.

(** ** The averaged parameter *)

Section Averaging.
Context {F : Type} `{Float64 F}.

Lemma slice_from_replicate (w : Z) (n : nat) (p : list F) :
  slice_from (- w) (replicate n p) = replicate (rows_averaged w n) p.
Proof.
  unfold slice_from, rows_averaged. rewrite length_replicate.
  destruct (Z.leb_spec 0 (- w)); rewrite drop_replicate; f_equal.
  - destruct (decide (w = 0)%Z) as [->|]; [cbn; lia|].
    by rewrite decide_False by lia.
  - rewrite Z.opp_involutive, decide_False by lia. rewrite decide_True by lia. lia.
Qed.

(** What [optimize] returns as [smoothed_opt_param] is numpy's mean along
    axis 0 of copies of one vector, the parameter as the last iteration
    left it: [n_iters] copies when the window [w = int(n_iters *
    smoothed_prop)] is 0, [min(w, n_iters)] when it is positive, and
    [n_iters - |w|] (or none) when it is negative.  In binary64 the mean of
    copies of a number need not be that number. *)
Theorem smoothed_opt_param_averages_last_iterate
    (self : object F) (n_iters : Z) (objective : list F → F * list F)
    (init_param : list F) (smoothed_prop : F) (d : dict F) :
  StochasticGradientOptimizer.optimize self n_iters objective init_param smoothed_prop
  = Ok d →
  ∃ p w,
    param_after self objective init_param (Z.to_nat n_iters) = Ok p
    ∧ py_int (of_int n_iters * smoothed_prop)%f64 = Ok w
    ∧ smoothed_opt_param d
      = np_mean_axis0 (length p) (replicate (rows_averaged w (Z.to_nat n_iters)) p).
Proof.
  intros Hopt.
  destruct (optimize_history_is_last_iterate_rows _ _ _ _ _ _ Hopt)
    as (Hn & p & Hp & Hrows).
  unfold StochasticGradientOptimizer.optimize, StochasticGradientOptimizer.optimize_of in Hopt.
  fold (StochasticGradientOptimizer.body (F := F)) in Hopt. cbn [alloc length app] in Hopt.
  bind_inv Hopt as w Hw. bind_inv Hopt as s Hloop. bind_inv Hopt as rows Hrows'.
  exists p, w. split; [done|]. split; [done|].
  destruct rows as [|row rows]; [discriminate|]. injection Hopt as <-.
  cbn [smoothed_opt_param variational_param_history] in *.
  rewrite Hrows, slice_from_replicate.
  assert (row = p) as ->; [|done].
  destruct (Z.to_nat n_iters); [discriminate|]. by injection Hrows as -> _.
Qed.
End Averaging.

Lemma smoothed_opt_param_averages_last_iterate_witness :
  ∃ d p w,
    StochasticGradientOptimizer.optimize Example.rmsprop 3 Example.quadratic
      [1; -2]%float 1%float = Ok d
    ∧ param_after Example.rmsprop Example.quadratic [1; -2]%float 3 = Ok p
    ∧ py_int (of_int 3 * 1%float)%f64 = Ok w
    ∧ smoothed_opt_param d = np_mean_axis0 (length p) (replicate (rows_averaged w 3) p).
Proof.
  pose proof (smoothed_opt_param_averages_last_iterate Example.rmsprop 3
                Example.quadratic [1; -2]%float 1%float) as Hmean.
  destruct (StochasticGradientOptimizer.optimize Example.rmsprop 3 Example.quadratic
              [1; -2]%float 1%float) as [d|e] eqn:Hopt;
    [|vm_compute in Hopt; discriminate].
  destruct (Hmean d eq_refl) as (p & w & Hp & Hw & Hsmoothed). by exists d, p, w.
Defined.

(** The mean of three copies of [0.1] (the float [0x1.999999999999ap-4]) is
    the next float up: the averaged parameter can differ from the last
    iterate in the last bit. *)
Lemma mean_of_copies_differs :
  np_mean_axis0 2 (replicate 3 [0x1.999999999999ap-4; 0x1.999999999999ap-4]%float)
  = [0x1.999999999999bp-4; 0x1.999999999999bp-4]%float
  ∧ PrimFloat.eqb 0x1.999999999999bp-4 0x1.999999999999ap-4 = false.
Proof. split; vm_compute; reflexivity. Qed.

(** ** What an iteration of [convergence_test] changes *)

Section Iterations.
Context {F : Type} `{Float64 F} `{Library F}.

(** The two ways an iteration completes: with a reduction, or without. *)
Lemma convergence_test_body_cases
    (self : SASA.self_ F) (objective : list F → F * list F) (t : Z)
    (s s' : SASA.locals F) (stop : bool) :
  SASA.body self objective t s = Ok (s', stop) →
  let W := SASA.window self t (SASA.t0 s) in
  let b := SASA.batch_size W in
  ((∃ Delta, SASA.Delta_history s' = SASA.Delta_history s ++ [Delta])
   ∧ SASA.variational_param_history s'
     = SASA.variational_param_history s ++ [SASA.variational_param s]
   ∧ SASA.variational_param s' = SASA.variational_param s)
  ∧ ∃ skl, SASA.SKL s' = Some skl
    ∧ stop = (skl / SASA._rho self <? SASA._eps self)%f64
    ∧ ((SASA.check_due self W t = Ok true
        ∧ SASA.convergence_check self W (SASA.Delta_history s') = Ok true
        ∧ SASA.t0 s' = t
        ∧ SASA.learning_rate s' = (SASA._rho self * SASA.learning_rate s)%f64
        ∧ SASA.variational_param_mean s'
          = np_mean_axis0 (length (deref (SASA.mem s') (SASA.variational_param s)))
              (deref (SASA.mem s')
                 <$> slice_from (- (b * b)) (SASA.variational_param_history s'))
        ∧ skl = (MFGaussian_kl (SASA.variational_param_mean s)
                   (SASA.variational_param_mean s')
                 + MFGaussian_kl (SASA.variational_param_mean s')
                     (SASA.variational_param_mean s))%f64)
       ∨ ((SASA.check_due self W t = Ok false
           ∨ SASA.convergence_check self W (SASA.Delta_history s') = Ok false)
          ∧ SASA.t0 s' = SASA.t0 s
          ∧ SASA.learning_rate s' = SASA.learning_rate s
          ∧ SASA.variational_param_mean s' = SASA.variational_param_mean s
          ∧ SASA.SKL s' = SASA.SKL s)).
Proof.
  intros Hbody W b. unfold SASA.body, SASA.body_with in Hbody.
  destruct (objective _) as [object_val object_grad].
  bind_inv Hbody as dir Hdir. destruct dir as [descent_dir history].
  bind_inv Hbody as updated Hupdated.
  bind_inv Hbody as dot Hdot.
  bind_inv Hbody as due Hdue. fold W in Hdue, Hbody. fold b in Hbody.
  bind_inv Hbody as s1 Hs1.
  destruct (SASA.SKL s1) as [skl|] eqn:Hskl; [|discriminate].
  injection Hbody as -> <-.
  assert (∀ P Q : Prop, P → (P → Q) → P ∧ Q) as Hand by tauto.
  apply Hand.
  { destruct due.
    - bind_inv Hs1 as convg Hconvg. destruct convg.
      + bind_inv Hs1 as latter Hlatter. injection Hs1 as <-. cbn. by eauto.
      + injection Hs1 as <-. cbn. by eauto.
    - injection Hs1 as <-. cbn. by eauto. }
  intros _. exists skl. split; [done|]. split; [done|].
  destruct due.
  - bind_inv Hs1 as convg Hconvg. destruct convg.
    + bind_inv Hs1 as latter Hlatter. apply np_array_Ok in Hlatter as ->.
      injection Hs1 as <-. cbn in Hskl. injection Hskl as <-.
      left. by repeat split.
    + injection Hs1 as <-. right. cbn. by eauto 10.
  - injection Hs1 as <-. right. cbn. by eauto 10.
Qed.

(** An iteration of the loop of [convergence_test] that completes and does
    not reduce the learning rate leaves the anchor [t0], the mean
    [variational_param_mean] and [SKL] as they were; one that reduces it
    sets [t0] to [t] and [SKL] to the symmetrised KL divergence between the
    previous mean and the new one.  The flag of the [break] is
    [SKL/rho < eps] on the value [SKL] then has. *)
Theorem convergence_test_iteration_frame
    (self : SASA.self_ F) (objective : list F → F * list F) (t : Z)
    (s s' : SASA.locals F) (stop : bool) :
  SASA.body self objective t s = Ok (s', stop) →
  let W := SASA.window self t (SASA.t0 s) in
  let reduction :=
    (SASA._W0 self ≤ W)%Z ∧ (t `mod` SASA._t_check self = 0)%Z
    ∧ SASA.convergence_check self W (SASA.Delta_history s') = Ok true in
  (∃ skl, SASA.SKL s' = Some skl
          ∧ stop = (skl / SASA._rho self <? SASA._eps self)%f64)
  ∧ (reduction →
       SASA.t0 s' = t
       ∧ SASA.SKL s'
         = Some (MFGaussian_kl (SASA.variational_param_mean s)
                   (SASA.variational_param_mean s')
                 + MFGaussian_kl (SASA.variational_param_mean s')
                     (SASA.variational_param_mean s))%f64)
  ∧ (¬ reduction →
       SASA.t0 s' = SASA.t0 s
       ∧ SASA.variational_param_mean s' = SASA.variational_param_mean s
       ∧ SASA.SKL s' = SASA.SKL s).
Proof.
  intros Hbody W reduction. subst reduction.
  destruct (convergence_test_body_cases _ _ _ _ _ _ Hbody)
    as (_ & skl & Hskl & Hstop & Hcases). fold W in Hcases.
  split; [by exists skl|].
  destruct Hcases as [(Hdue & Hcheck & Ht0 & _ & _ & ->)
                     | (Hnot & Ht0 & _ & Hmean & HSKL)].
  - apply check_due_true in Hdue as (HW & _ & Hmod).
    split; [done|]. intros Hno. by destruct Hno.
  - split; [|done]. intros (HW & Hmod & Hcheck).
    destruct Hnot as [Hdue|Hfalse]; [|congruence].
    apply check_due_false in Hdue. by destruct Hdue.
Qed.

(** The loop of [convergence_test] breaks only in an iteration that reduces
    the learning rate: when the stopping rule did not hold on the [SKL] the
    iteration started with, as after every iteration the loop went on from,
    and the iteration ends in [break], then it set [t0] to [t] and
    multiplied the learning rate by [rho]. *)
Theorem break_only_on_reduction
    (self : SASA.self_ F) (objective : list F → F * list F) (t : Z)
    (s s' : SASA.locals F) :
  SASA.body self objective t s = Ok (s', true) →
  (∀ skl, SASA.SKL s = Some skl → (skl / SASA._rho self <? SASA._eps self)%f64 = false) →
  SASA.t0 s' = t
  ∧ SASA.learning_rate s' = (SASA._rho self * SASA.learning_rate s)%f64
  ∧ SASA.convergence_check self (SASA.window self t (SASA.t0 s)) (SASA.Delta_history s')
    = Ok true.
Proof.
  intros Hbody Hbefore.
  destruct (convergence_test_body_cases _ _ _ _ _ _ Hbody)
    as (_ & skl & Hskl & Hstop & Hcases).
  destruct Hcases as [(_ & Hcheck & Ht0 & Hrate & _) | (_ & _ & _ & _ & HSKL)]; [done|].
  rewrite Hskl in HSKL. symmetry in HSKL. apply Hbefore in HSKL. congruence.
Qed.

Lemma slice_from_replicate_length {A} (w : Z) (n : nat) (x : A) :
  (0 < w)%Z →
  slice_from (- w) (replicate n x) = replicate (Nat.min (Z.to_nat w) n) x.
Proof.
  intros Hw. rewrite slice_from_last by done.
  rewrite drop_replicate, length_replicate. f_equal. lia.
Qed.

(** In an iteration that reduces the learning rate, the rows averaged into
    [variational_param_mean] are copies of one vector, the parameter as the
    iteration leaves it: every entry of [variational_param_history] is the
    array [variational_param] (as it is in every state a run reaches, see
    [convergence_test_appends]), so the mean over the last [b*b] entries,
    [b = floor(sqrt(W))], is a mean over [min(b*b, t')] copies of the current
    contents of that array, [t'] the number of entries. *)
Theorem reduction_averages_current_param
    (self : SASA.self_ F) (objective : list F → F * list F) (t : Z)
    (s s' : SASA.locals F) (stop : bool) :
  SASA.body self objective t s = Ok (s', stop) →
  Forall (λ l, l = SASA.variational_param s) (SASA.variational_param_history s) →
  SASA.learning_rate s' ≠ SASA.learning_rate s →
  let b := SASA.batch_size (SASA.window self t (SASA.t0 s)) in
  let k := Nat.min (Z.to_nat (b * b)) (length (SASA.variational_param_history s')) in
  let param := deref (SASA.mem s') (SASA.variational_param s') in
  (1 ≤ k)%nat
  ∧ SASA.variational_param_mean s' = np_mean_axis0 (length param) (replicate k param).
Proof.
  intros Hbody Hhistory Hrate b k param.
  destruct (convergence_test_body_cases _ _ _ _ _ _ Hbody)
    as (((Delta & HDelta) & Hrows & Hparam) & skl & _ & _ & Hcases).
  fold b in Hcases.
  destruct Hcases as [(_ & Hcheck & _ & _ & Hmean & _) | (_ & _ & Hsame & _)]; [|done].
  assert (is_Ok (SASA.convergence_check self (SASA.window self t (SASA.t0 s))
                   (SASA.Delta_history s')) = true) as Hok by by rewrite Hcheck.
  apply convergence_check_Ok in Hok. fold b in Hok.
  destruct Hok as [(Hb & _) | (_ & Hnil)];
    [|rewrite HDelta in Hnil; by destruct (SASA.Delta_history s)].
  assert (SASA.variational_param_history s'
          = replicate (length (SASA.variational_param_history s'))
              (SASA.variational_param s)) as Hreplicate.
  { symmetry. apply replicate_as_Forall. split; [done|].
    rewrite Hrows. apply Forall_app. split; [|by repeat constructor].
    eapply Forall_impl; [exact Hhistory|]. by intros l ->. }
  assert (1 ≤ length (SASA.variational_param_history s'))%nat
    by (rewrite Hrows, length_app; cbn; lia).
  split; [subst k; nia|].
  rewrite Hmean, Hreplicate, slice_from_replicate_length by nia.
  rewrite fmap_replicate. fold k. subst param.
  by rewrite Hparam.
Qed.
End Iterations.

Lemma convergence_test_iteration_frame_witness :
  ∃ s', SASA.body Example.sasa Example.quadratic 4 Example.at_iteration_4 = Ok (s', false)
        ∧ SASA.t0 s' = 4%Z
        ∧ SASA.SKL s'
          = Some (MFGaussian_kl [1; -2]%float (SASA.variational_param_mean s')
                  + MFGaussian_kl (SASA.variational_param_mean s') [1; -2]%float)%f64.
Proof.
  eexists. split; [vm_compute; reflexivity|].
  refine (proj1 (proj2 (convergence_test_iteration_frame Example.sasa Example.quadratic 4
                          Example.at_iteration_4 _ false _)) _).
  - vm_compute. reflexivity.
  - vm_compute. by repeat split.
Defined.

Lemma break_only_on_reduction_witness :
  ∃ s', SASA.body Example.sasa_loose Example.quadratic 4 Example.at_iteration_4
        = Ok (s', true)
        ∧ SASA.t0 s' = 4%Z
        ∧ SASA.learning_rate s' = 0.25%float.
Proof.
  eexists. split; [vm_compute; reflexivity|].
  refine (let H := break_only_on_reduction Example.sasa_loose Example.quadratic 4
                     Example.at_iteration_4 _ _ _ in conj (proj1 H) (proj1 (proj2 H))).
  - vm_compute. reflexivity.
  - intros skl Hskl. discriminate Hskl.
Defined.

Lemma reduction_averages_current_param_witness :
  ∃ s', SASA.body Example.sasa Example.quadratic 4 Example.at_iteration_4 = Ok (s', false)
        ∧ SASA.variational_param_mean s'
          = np_mean_axis0 2 (replicate 4 (deref (SASA.mem s') 0%nat)).
Proof.
  eexists. split; [vm_compute; reflexivity|].
  refine (proj2 (reduction_averages_current_param Example.sasa Example.quadratic 4
                   Example.at_iteration_4 _ false _ _ _)).
  - vm_compute. reflexivity.
  - repeat constructor.
  - vm_compute. intros Heq. discriminate Heq.
Defined.

(** ** The classes of the module *)

(** Of the classes below [Optimizer], exactly [RMSProp] and [AdaGrad] can
    be instantiated: [Optimizer] and [SASA] lack [optimize], and
    [StochasticGradientOptimizer] lacks [descent_direction].  On an instance
    of either, [optimize] resolves to the method of
    [StochasticGradientOptimizer] and [descent_direction] and [__init__] to
    the methods of the class itself. *)
Theorem instantiable_classes (c : class) :
  type_Optimizer ∈ mro c →
  (py_new c = Ok () ↔ c = type_RMSProp ∨ c = type_AdaGrad)
  ∧ (py_new c = Ok () →
       class_getattr c "optimize" = Some (type_StochasticGradientOptimizer, false)
       ∧ class_getattr c "descent_direction" = Some (c, false)
       ∧ class_getattr c "__init__" = Some (c, false)).
Proof.
  intros Hin. apply (bool_decide_pack _) in Hin.
  destruct c; vm_compute in Hin; try contradiction; clear Hin;
    vm_compute; (split; [split|]);
    try (intros [|]); try discriminate; try tauto; intros _;
      by repeat split.
Qed.

Lemma instantiable_classes_witness :
  py_new type_AdaGrad = Ok ()
  ∧ class_getattr type_AdaGrad "optimize" = Some (type_StochasticGradientOptimizer, false).
Proof.
  assert (type_Optimizer ∈ mro type_AdaGrad) as Hin by (cbn; set_solver).
  destruct (instantiable_classes type_AdaGrad Hin) as [Hnew Hresolve].
  split; [apply Hnew; by right|].
  apply Hresolve, Hnew. by right.
Defined.
